(** * Field-by-field comparison of two RDS instance descriptions

    A shallow embedding of [compare_rds_fields] from
    [userinput_dbcheck.py] together with the Python builtins it relies on
    ([dict.get], [isinstance], truthiness, [==], [<], [sorted], [str],
    [json.dumps(..., sort_keys=True)]), and the properties of the
    comparison report that follow from the code.

    Values are [None], booleans, integers, strings, lists and
    dictionaries with string keys; floats and [datetime] objects are
    outside the model.  Python exceptions are modelled by the [result]
    type.  The calls to [logger] have no influence on the returned report
    and are left out. *)

From Stdlib Require Import ZArith List String Ascii Bool Lia.
From Stdlib Require Import Permutation Sorted OrderedTypeEx.
From Stdlib Require Import DecimalString.
Import ListNotations.

Local Open Scope string_scope.
Local Open Scope Z_scope.

(** ** Python values

    The values that occur in a [describe_db_instances] record: [None],
    booleans, integers, strings, lists and dictionaries with string keys.
    A dictionary keeps its insertion order, so it is an association list;
    a well-formed dictionary has no repeated key ([wf_value]). *)

#[local] Set Warnings "-register-all".
Inductive value : Type :=
| VNone
| VBool (b : bool)
| VInt (n : Z)
| VStr (s : string)
| VList (l : list value)
| VDict (d : list (string * value)).

(** A record as passed to [compare_rds_fields]: a dictionary. *)
Definition record := list (string * value).

(** Exceptions that the comparison can raise. *)
Inductive exn : Type :=
| TypeError
| AttributeError.

Inductive result (A : Type) : Type :=
| Ok (a : A)
| Raise (e : exn).

Arguments Ok {A} a.
Arguments Raise {A} e.

Definition bind {A B : Type} (r : result A) (k : A -> result B) : result B :=
  match r with
  | Ok a => k a
  | Raise e => Raise e
  end.

Notation "x <- r ;; k" := (bind r (fun x => k))
  (at level 61, r at next level, right associativity).

(** ** Builtins *)

(** [d.get(k)] with the [None] default left to the caller. *)
Fixpoint dict_lookup {A : Type} (d : list (string * A)) (k : string) : option A :=
  match d with
  | [] => None
  | (k', v) :: d' => if String.eqb k' k then Some v else dict_lookup d' k
  end.

(** [d.get(k)]: the value bound to [k], [None] when [k] is not a key. *)
Definition dict_get (d : list (string * value)) (k : string) : value :=
  match dict_lookup d k with
  | Some v => v
  | None => VNone
  end.

(** [x.get(k)] on an arbitrary value: only dictionaries have the method. *)
Definition method_get (x : value) (k : string) : result value :=
  match x with
  | VDict d => Ok (dict_get d k)
  | _ => Raise AttributeError
  end.

(** Truth value of an object, as tested by [if x] and [not x]. *)
Definition truthy (v : value) : bool :=
  match v with
  | VNone => false
  | VBool b => b
  | VInt n => negb (n =? 0)
  | VStr s => negb (String.eqb s EmptyString)
  | VList l => match l with [] => false | _ => true end
  | VDict d => match d with [] => false | _ => true end
  end.

Definition is_list (v : value) : bool :=
  match v with VList _ => true | _ => false end.

Definition is_dict (v : value) : bool :=
  match v with VDict _ => true | _ => false end.

(** Numeric content of an integer or a boolean ([True] is 1, [False] 0). *)
Definition num_of (v : value) : option Z :=
  match v with
  | VBool b => Some (Z.b2z b)
  | VInt n => Some n
  | _ => None
  end.

(** [a == b].  Numbers (booleans included) compare by numeric value,
    strings by content, lists element by element, dictionaries by their
    key/value pairs whatever the insertion order; values of unrelated
    types are unequal. *)
Fixpoint py_eq (a b : value) {struct a} : bool :=
  match a, b with
  | VNone, VNone => true
  | VBool x, VBool y => Z.b2z x =? Z.b2z y
  | VBool x, VInt n => Z.b2z x =? n
  | VInt n, VBool y => n =? Z.b2z y
  | VInt n, VInt m => n =? m
  | VStr s, VStr t => String.eqb s t
  | VList l, VList m =>
      (fix eq_items (l m : list value) {struct l} : bool :=
         match l, m with
         | [], [] => true
         | x :: l', y :: m' => py_eq x y && eq_items l' m'
         | _, _ => false
         end) l m
  | VDict d, VDict e =>
      Nat.eqb (List.length d) (List.length e) &&
      (fix eq_entries (d : list (string * value)) : bool :=
         match d with
         | [] => true
         | (k, v) :: d' =>
             match dict_lookup e k with
             | Some w => py_eq v w
             | None => false
             end && eq_entries d'
         end) d
  | _, _ => false
  end.

(** [a != b]. *)
Definition py_ne (a b : value) : bool := negb (py_eq a b).

(** [a < b].  Defined between numbers, between strings and between
    lists (lexicographic: the first pair of unequal items decides);
    every other combination raises [TypeError]. *)
Fixpoint py_lt (a b : value) {struct a} : result bool :=
  match a, b with
  | VBool x, VBool y => Ok (Z.b2z x <? Z.b2z y)
  | VBool x, VInt n => Ok (Z.b2z x <? n)
  | VInt n, VBool y => Ok (n <? Z.b2z y)
  | VInt n, VInt m => Ok (n <? m)
  | VStr s, VStr t => Ok (String.ltb s t)
  | VList l, VList m =>
      (fix lt_items (l m : list value) {struct l} : result bool :=
         match l, m with
         | [], [] => Ok false
         | [], _ :: _ => Ok true
         | _ :: _, [] => Ok false
         | x :: l', y :: m' =>
             if py_eq x y then lt_items l' m' else py_lt x y
         end) l m
  | _, _ => Raise TypeError
  end.

(** [sorted(l)]: a stable sort that looks at the items through [<]
    alone; an exception raised by a comparison propagates.  It is written
    here as a stable insertion sort.  Where every two items can be
    compared the result does not depend on the sorting method
    ([sorted_sorts], [sorted_permutation]); a list of two items is
    compared once by any method. *)
Fixpoint insert_sorted (x : value) (s : list value) : result (list value) :=
  match s with
  | [] => Ok [x]
  | y :: s' =>
      b <- py_lt y x ;;
      if b then (r <- insert_sorted x s' ;; Ok (y :: r))
      else Ok (x :: y :: s')
  end.

Fixpoint sorted (l : list value) : result (list value) :=
  match l with
  | [] => Ok []
  | x :: l' => s <- sorted l' ;; insert_sorted x s
  end.

(** ** Text forms: [str], [repr] and [json.dumps]

    A character of a [string] stands for a code point below 256. *)

Definition dquote : ascii := ascii_of_nat 34.
Definition squote : ascii := ascii_of_nat 39.
Definition backslash : ascii := ascii_of_nat 92.

Definition hex_digit (n : nat) : ascii :=
  if Nat.ltb n 10 then ascii_of_nat (48 + n) else ascii_of_nat (87 + n).

(** Two lower-case hexadecimal digits of a code point below 256. *)
Definition hex2 (c : ascii) : string :=
  let n := nat_of_ascii c in
  String (hex_digit (Nat.div n 16)) (String (hex_digit (Nat.modulo n 16)) EmptyString).

Fixpoint contains (c : ascii) (s : string) : bool :=
  match s with
  | EmptyString => false
  | String c' s' => Ascii.eqb c c' || contains c s'
  end.

Fixpoint concat_map (f : ascii -> string) (s : string) : string :=
  match s with
  | EmptyString => EmptyString
  | String c s' => f c ++ concat_map f s'
  end.

Fixpoint join (sep : string) (l : list string) : string :=
  match l with
  | [] => EmptyString
  | [x] => x
  | x :: l' => x ++ sep ++ join sep l'
  end.

(** Decimal form of an integer, as [str(n)] and [json.dumps(n)] print it.
    The [ValueError] with which an interpreter refuses to print an
    integer of more than 4300 digits is not modelled. *)
Definition int_str (n : Z) : string := NilZero.string_of_int (Z.to_int n).

(** Code points below 256 that [repr] does not print as they are. *)
Definition repr_unprintable (n : nat) : bool :=
  Nat.ltb n 32 || (Nat.leb 127 n && Nat.leb n 160) || Nat.eqb n 173.

Definition repr_char (quote c : ascii) : string :=
  let n := nat_of_ascii c in
  if Ascii.eqb c quote || Ascii.eqb c backslash then String backslash (String c EmptyString)
  else if Nat.eqb n 9 then String backslash "t"
  else if Nat.eqb n 10 then String backslash "n"
  else if Nat.eqb n 13 then String backslash "r"
  else if repr_unprintable n then String backslash ("x" ++ hex2 c)
  else String c EmptyString.

(** [repr(s)] of a string: single quotes, unless the text holds a single
    quote and no double quote. *)
Definition repr_str (s : string) : string :=
  let quote := if contains squote s && negb (contains dquote s) then dquote else squote in
  String quote (concat_map (repr_char quote) s ++ String quote EmptyString).

Fixpoint py_repr (v : value) : string :=
  match v with
  | VNone => "None"
  | VBool true => "True"
  | VBool false => "False"
  | VInt n => int_str n
  | VStr s => repr_str s
  | VList l => "[" ++ join ", " (map py_repr l) ++ "]"
  | VDict d =>
      "{" ++ join ", "
        ((fix entries (d : list (string * value)) : list string :=
            match d with
            | [] => []
            | (k, v) :: d' => (repr_str k ++ ": " ++ py_repr v) :: entries d'
            end) d) ++ "}"
  end.

(** [str(v)]: the text itself for a string, [repr(v)] otherwise. *)
Definition py_str (v : value) : string :=
  match v with
  | VStr s => s
  | _ => py_repr v
  end.

(** One character of a JSON string with [ensure_ascii] on. *)
Definition json_char (c : ascii) : string :=
  let n := nat_of_ascii c in
  if Ascii.eqb c dquote || Ascii.eqb c backslash then String backslash (String c EmptyString)
  else if Nat.eqb n 8 then String backslash "b"
  else if Nat.eqb n 9 then String backslash "t"
  else if Nat.eqb n 10 then String backslash "n"
  else if Nat.eqb n 12 then String backslash "f"
  else if Nat.eqb n 13 then String backslash "r"
  else if Nat.leb 32 n && Nat.leb n 126 then String c EmptyString
  else String backslash ("u00" ++ hex2 c).

Definition json_str (s : string) : string :=
  String dquote (concat_map json_char s ++ String dquote EmptyString).

(** Stable sort of encoded dictionary items by key, the effect of
    [sort_keys=True]. *)
Fixpoint insert_item (x : string * string) (s : list (string * string))
  : list (string * string) :=
  match s with
  | [] => [x]
  | y :: s' => if String.ltb (fst y) (fst x) then y :: insert_item x s' else x :: y :: s'
  end.

Fixpoint sort_items (l : list (string * string)) : list (string * string) :=
  match l with
  | [] => []
  | x :: l' => insert_item x (sort_items l')
  end.

(** [json.dumps(v, sort_keys=True)] with the default separators, on the
    values of the model; the [TypeError] raised on a value that JSON
    cannot hold, such as a [datetime], is outside it. *)
Fixpoint json_dumps (v : value) : string :=
  match v with
  | VNone => "null"
  | VBool true => "true"
  | VBool false => "false"
  | VInt n => int_str n
  | VStr s => json_str s
  | VList l => "[" ++ join ", " (map json_dumps l) ++ "]"
  | VDict d =>
      "{" ++ join ", "
        (map (fun kv => json_str (fst kv) ++ ": " ++ snd kv)
           (sort_items
              ((fix items (d : list (string * value)) : list (string * string) :=
                  match d with
                  | [] => []
                  | (k, v) :: d' => (k, json_dumps v) :: items d'
                  end) d))) ++ "}"
  end.

(** ** The comparison report *)

(** One entry of the ["differences"] dictionary:
    [{"db1": ..., "db2": ..., "diff": ...}]. *)
Record FieldDifference : Type := {
  db1 : value;
  db2 : value;
  diff : bool
}.

(** The dictionary returned by [compare_rds_fields].  ["differences"] is
    a dictionary keyed by field name, in insertion order. *)
Record ComparisonReport : Type := {
  status : string;
  message : string;
  differences : list (string * FieldDifference)
}.

(** [d[k] = v]: an existing key keeps its place and takes the new value,
    a new key goes to the end. *)
Fixpoint dict_set {A : Type} (d : list (string * A)) (k : string) (v : A)
  : list (string * A) :=
  match d with
  | [] => [(k, v)]
  | (k', v') :: d' =>
      if String.eqb k' k then (k', v) :: d' else (k', v') :: dict_set d' k v
  end.

(** ** [compare_rds_fields] *)

(** [[sg.get('VpcSecurityGroupId') for sg in l if sg.get('VpcSecurityGroupId')]] *)
Fixpoint sg_ids (l : list value) : result (list value) :=
  match l with
  | [] => Ok []
  | sg :: l' =>
      id <- method_get sg "VpcSecurityGroupId" ;;
      ids <- sg_ids l' ;;
      Ok (if truthy id then id :: ids else ids)
  end.

(** The body of the loop for one field: the entry stored under the field
    name.  [found_differences] is set exactly when the entry has
    [diff = True]. *)
Definition compare_field (db1_details db2_details : record) (field : string)
  : result FieldDifference :=
  let value1 := dict_get db1_details field in
  let value2 := dict_get db2_details field in
  match value1, value2 with
  | VList l1, VList l2 =>
      if String.eqb field "VpcSecurityGroups" then
        ids1 <- (ids <- sg_ids l1 ;; sorted ids) ;;
        ids2 <- (ids <- sg_ids l2 ;; sorted ids) ;;
        Ok {| db1 := VList ids1; db2 := VList ids2;
              diff := py_ne (VList ids1) (VList ids2) |}
      else
        s1 <- sorted l1 ;;
        s2 <- sorted l2 ;;
        Ok {| db1 := value1; db2 := value2;
              diff := py_ne (VList s1) (VList s2) |}
  | VDict _, VDict _ =>
      let str_value1 := json_dumps value1 in
      let str_value2 := json_dumps value2 in
      Ok {| db1 := value1; db2 := value2;
            diff := negb (String.eqb str_value1 str_value2) |}
  | _, _ =>
      Ok {| db1 := VStr (py_str value1); db2 := VStr (py_str value2);
            diff := py_ne value1 value2 |}
  end.

(** The [for] loop, threading [found_differences] and the
    ["differences"] dictionary. *)
Fixpoint compare_loop (db1_details db2_details : record) (fields : list string)
  (found_differences : bool) (diffs : list (string * FieldDifference))
  : result (bool * list (string * FieldDifference)) :=
  match fields with
  | [] => Ok (found_differences, diffs)
  | field :: rest =>
      d <- compare_field db1_details db2_details field ;;
      compare_loop db1_details db2_details rest
        (if diff d then true else found_differences)
        (dict_set diffs field d)
  end.

(** [not details] for an argument that is [None] or a dictionary. *)
Definition falsy (details : option record) : bool :=
  match details with
  | None => true
  | Some d => negb (truthy (VDict d))
  end.

Definition error_report : ComparisonReport :=
  {| status := "ERROR";
     message := "One or both DB instance details are missing for comparison.";
     differences := [] |}.

Definition compare_rds_fields (db1_details db2_details : option record)
  (fields_to_compare : list string) : result ComparisonReport :=
  if falsy db1_details || falsy db2_details then Ok error_report
  else
    match db1_details, db2_details with
    | Some d1, Some d2 =>
        st <- compare_loop d1 d2 fields_to_compare false [] ;;
        let (found_differences, diffs) := st in
        if found_differences then
          Ok {| status := "DIFFERENCES_FOUND";
                message := "Differences found for one or more specified fields.";
                differences := diffs |}
        else
          Ok {| status := "SUCCESS";
                message := "No differences found for specified fields.";
                differences := diffs |}
    | _, _ => Ok error_report
    end.

(** ** Notions used to state the properties *)

(** A dictionary's keys are pairwise distinct. *)
Fixpoint keys_distinct (ks : list string) : bool :=
  match ks with
  | [] => true
  | k :: ks' => negb (existsb (String.eqb k) ks') && keys_distinct ks'
  end.

(** Well-formed values: no dictionary, at any depth, repeats a key. *)
Fixpoint wf_value (v : value) : bool :=
  match v with
  | VList l => forallb wf_value l
  | VDict d =>
      keys_distinct (map fst d) &&
      (fix wf_entries (d : list (string * value)) : bool :=
         match d with
         | [] => true
         | (_, x) :: d' => wf_value x && wf_entries d'
         end) d
  | _ => true
  end.

(** The kind of a value, as [type(v)] tells it. *)
Inductive kind : Type := KNone | KBool | KInt | KStr | KList | KDict.

Definition kind_of (v : value) : kind :=
  match v with
  | VNone => KNone
  | VBool _ => KBool
  | VInt _ => KInt
  | VStr _ => KStr
  | VList _ => KList
  | VDict _ => KDict
  end.

(** Booleans and integers are both numbers for [==]. *)
Definition is_number (v : value) : bool :=
  match v with
  | VBool _ | VInt _ => true
  | _ => false
  end.

(** The first occurrence of each name, in order. *)
Fixpoint first_occurrences (l : list string) : list string :=
  match l with
  | [] => []
  | x :: l' => x :: filter (fun y => negb (String.eqb x y)) (first_occurrences l')
  end.

(** [x < y] holds (and does not raise). *)
Definition py_ltb (x y : value) : bool :=
  match py_lt x y with
  | Ok b => b
  | Raise _ => false
  end.

(** [x < y] is defined. *)
Definition comparable (x y : value) : bool :=
  match py_lt x y with
  | Ok _ => true
  | Raise _ => false
  end.

(** Every two items of [l] can be compared with [<]. *)
Definition mutually_comparable (l : list value) : bool :=
  forallb (fun x => forallb (comparable x) l) l.

(** The sort of [sorted] over a total comparison. *)
Fixpoint insert_by {A : Type} (ltb : A -> A -> bool) (x : A) (s : list A) : list A :=
  match s with
  | [] => [x]
  | y :: s' => if ltb y x then y :: insert_by ltb x s' else x :: y :: s'
  end.

Fixpoint sort_by {A : Type} (ltb : A -> A -> bool) (l : list A) : list A :=
  match l with
  | [] => []
  | x :: l' => insert_by ltb x (sort_by ltb l')
  end.

(** The identifier of one security-group attachment. *)
Definition sg_id (sg : list (string * value)) : value :=
  dict_get sg "VpcSecurityGroupId".

(** The report has an entry with [diff = True]. *)
Definition any_differs (r : ComparisonReport) : bool :=
  existsb (fun e => diff (snd e)) (differences r).

(** The two operands of [!=] (written [ids1 != ids2],
    [sorted(value1) != sorted(value2)], [str_value1 != str_value2] and
    [value1 != value2]) in the four branches of the loop body. *)
Definition compared_forms (field : string) (value1 value2 : value)
  : result (value * value) :=
  match value1, value2 with
  | VList l1, VList l2 =>
      if String.eqb field "VpcSecurityGroups" then
        ids1 <- (ids <- sg_ids l1 ;; sorted ids) ;;
        ids2 <- (ids <- sg_ids l2 ;; sorted ids) ;;
        Ok (VList ids1, VList ids2)
      else
        s1 <- sorted l1 ;;
        s2 <- sorted l2 ;;
        Ok (VList s1, VList s2)
  | VDict _, VDict _ => Ok (VStr (json_dumps value1), VStr (json_dumps value2))
  | _, _ => Ok (value1, value2)
  end.

Definition is_none (v : value) : bool :=
  match v with VNone => true | _ => false end.

(** Every stored entry is the outcome of the loop body for its key. *)
Definition entries_ok (a b : record) (diffs : list (string * FieldDifference)) : Prop :=
  forall k d, In (k, d) diffs -> compare_field a b k = Ok d.

(** The field has no entry yet. *)
Definition unseen (diffs : list (string * FieldDifference)) (f : string) : bool :=
  negb (existsb (String.eqb f) (map fst diffs)).

(** Lexicographic [<] and item-wise [==] on lists, as [py_lt] and
    [py_eq] compute them on two lists. *)
Fixpoint lex_lt (l m : list value) : result bool :=
  match l, m with
  | [], [] => Ok false
  | [], _ :: _ => Ok true
  | _ :: _, [] => Ok false
  | x :: l', y :: m' => if py_eq x y then lex_lt l' m' else py_lt x y
  end.

Fixpoint eq_items (l m : list value) : bool :=
  match l, m with
  | [], [] => true
  | x :: l', y :: m' => py_eq x y && eq_items l' m'
  | _, _ => false
  end.

(** Structural induction on values, through lists and dictionaries. *)
Section ValueInduction.

Variable P : value -> Prop.
Hypothesis HNone : P VNone.
Hypothesis HBool : forall b, P (VBool b).
Hypothesis HInt : forall n, P (VInt n).
Hypothesis HStr : forall s, P (VStr s).
Hypothesis HList : forall l, Forall P l -> P (VList l).
Hypothesis HDict : forall d, Forall (fun kv => P (snd kv)) d -> P (VDict d).

Fixpoint value_induction (v : value) : P v :=
  match v with
  | VNone => HNone
  | VBool b => HBool b
  | VInt n => HInt n
  | VStr s => HStr s
  | VList l =>
      HList l
        ((fix items (l : list value) : Forall P l :=
            match l with
            | [] => Forall_nil P
            | x :: l' => Forall_cons x (value_induction x) (items l')
            end) l)
  | VDict d =>
      HDict d
        ((fix entries (d : list (string * value))
            : Forall (fun kv => P (snd kv)) d :=
            match d with
            | [] => Forall_nil _
            | kv :: d' => Forall_cons kv (value_induction (snd kv)) (entries d')
            end) d)
  end.

End ValueInduction.

(** ** The rest of the script

    The AWS clients, the clock and the environment variable are outside
    the program; the functions that use them take them as arguments. *)

(** *** The field list: [[field.strip() for field in s.split(',')]] *)

Definition comma : ascii := ascii_of_nat 44.

(** [s.split(sep)] for a one-character separator. *)
Fixpoint split_on (sep : ascii) (s : string) : list string :=
  match s with
  | EmptyString => [EmptyString]
  | String c s' =>
      if Ascii.eqb c sep then EmptyString :: split_on sep s'
      else
        match split_on sep s' with
        | w :: ws => String c w :: ws
        | [] => [String c EmptyString]
        end
  end.

(** The code points below 256 that [str.strip] removes. *)
Definition is_space (c : ascii) : bool :=
  let n := nat_of_ascii c in
  (Nat.leb 9 n && Nat.leb n 13) || (Nat.leb 28 n && Nat.leb n 32)
  || Nat.eqb n 133 || Nat.eqb n 160.

Fixpoint lstrip (s : string) : string :=
  match s with
  | EmptyString => EmptyString
  | String c s' => if is_space c then lstrip s' else s
  end.

Fixpoint rstrip (s : string) : string :=
  match s with
  | EmptyString => EmptyString
  | String c s' =>
      match rstrip s' with
      | EmptyString => if is_space c then EmptyString else String c EmptyString
      | r => String c r
      end
  end.

(** [s.strip()] *)
Definition strip (s : string) : string := rstrip (lstrip s).

Definition parse_fields (s : string) : list string :=
  map strip (split_on comma s).

(** Number of occurrences of a character. *)
Fixpoint count_char (c : ascii) (s : string) : nat :=
  match s with
  | EmptyString => O
  | String c' s' => if Ascii.eqb c' c then S (count_char c s') else count_char c s'
  end.

(** A name that [strip] leaves alone: empty, or with a first and a last
    character that are not white space. *)
Fixpoint last_char_ok (s : string) : bool :=
  match s with
  | EmptyString => true
  | String c EmptyString => negb (is_space c)
  | String _ s' => last_char_ok s'
  end.

Definition first_char_ok (s : string) : bool :=
  match s with
  | EmptyString => true
  | String c _ => negb (is_space c)
  end.

Definition stripped (s : string) : bool := first_char_ok s && last_char_ok s.

(** *** [get_rds_instance_details] *)

(** What [rds_client.describe_db_instances] does: it returns a response
    or raises. *)
Inductive client_result : Type :=
| Response (response : value)
| DBInstanceNotFoundFault
| ClientException.

(** [v[0]] inside the [try]: [None] here stands for the exception that
    the handler [except Exception] turns into [return None]. *)
Definition first_item (v : value) : option value :=
  match v with
  | VList (x :: _) => Some x
  | VStr (String c _) => Some (VStr (String c EmptyString))
  | _ => None
  end.

Definition get_rds_instance_details
  (describe_db_instances : string -> client_result) (db_identifier : string)
  : value :=
  match describe_db_instances db_identifier with
  | Response response =>
      if truthy response then
        match response with
        | VDict r =>
            if truthy (dict_get r "DBInstances") then
              match first_item (dict_get r "DBInstances") with
              | Some instance => instance
              | None => VNone
              end
            else VNone
        | _ => VNone
        end
      else VNone
  | DBInstanceNotFoundFault => VNone
  | ClientException => VNone
  end.

(** *** [store_comparison_results_to_s3] *)

(** The reading of the clock, [datetime.now()]. *)
Record timestamp : Type := {
  year : Z;
  month : Z;
  day : Z;
  hour : Z;
  minute : Z;
  second : Z;
  microsecond : Z
}.

(** The readings a clock can give, with a year of four digits. *)
Definition valid_timestamp (t : timestamp) : Prop :=
  1000 <= year t <= 9999 /\ 1 <= month t <= 12 /\ 1 <= day t <= 31 /\
  0 <= hour t < 24 /\ 0 <= minute t < 60 /\ 0 <= second t < 60 /\
  0 <= microsecond t < 1000000.

Definition digit (d : Z) : ascii := ascii_of_N (48 + Z.to_N d).

(** The last [w] decimal digits of [n], zero-padded. *)
Fixpoint pad (w : nat) (n : Z) : string :=
  match w with
  | O => EmptyString
  | S w' => pad w' (n / 10) ++ String (digit (n mod 10)) EmptyString
  end.

(** [t.strftime('%Y/%m/%d/%H%M%S%f')] *)
Definition strftime (t : timestamp) : string :=
  pad 4 (year t) ++ "/" ++ pad 2 (month t) ++ "/" ++ pad 2 (day t) ++ "/"
  ++ pad 2 (hour t) ++ pad 2 (minute t) ++ pad 2 (second t)
  ++ pad 6 (microsecond t).

Definition s3_object_key (db1_identifier db2_identifier : string) (t : timestamp)
  : string :=
  "rds-comparison-results/" ++ db1_identifier ++ "-vs-" ++ db2_identifier
  ++ "/" ++ strftime t ++ ".json".

Definition newline : ascii := ascii_of_nat 10.

Fixpoint spaces (n : nat) : string :=
  match n with
  | O => EmptyString
  | S n' => String (ascii_of_nat 32) (spaces n')
  end.

Definition newline_indent (indent level : nat) : string :=
  String newline (spaces (indent * level)).

(** [json.dumps(v, indent=indent)] at nesting depth [level]: items one
    per line, keys in insertion order. *)
Fixpoint json_indented (indent level : nat) (v : value) : string :=
  match v with
  | VNone => "null"
  | VBool true => "true"
  | VBool false => "false"
  | VInt n => int_str n
  | VStr s => json_str s
  | VList [] => "[]"
  | VList l =>
      "[" ++ newline_indent indent (S level)
      ++ join ("," ++ newline_indent indent (S level))
           (map (json_indented indent (S level)) l)
      ++ newline_indent indent level ++ "]"
  | VDict [] => "{}"
  | VDict d =>
      "{" ++ newline_indent indent (S level)
      ++ join ("," ++ newline_indent indent (S level))
           ((fix items (d : list (string * value)) : list string :=
               match d with
               | [] => []
               | (k, x) :: d' =>
                   (json_str k ++ ": " ++ json_indented indent (S level) x) :: items d'
               end) d)
      ++ newline_indent indent level ++ "}"
  end.

(** A report as the dictionary it is. *)
Definition difference_value (d : FieldDifference) : value :=
  VDict [("db1", db1 d); ("db2", db2 d); ("diff", VBool (diff d))].

Definition differences_value (diffs : list (string * FieldDifference)) : value :=
  VDict (map (fun e => (fst e, difference_value (snd e))) diffs).

Definition report_value (r : ComparisonReport) : value :=
  VDict [("status", VStr (status r)); ("message", VStr (message r));
         ("differences", differences_value (differences r))].

(** The [put_object] request that the function sends: bucket, key, body. *)
Definition s3_request (bucket : string) (now : timestamp)
  (db1_identifier db2_identifier : string) (comparison_output : ComparisonReport)
  : string * string * string :=
  (bucket, s3_object_key db1_identifier db2_identifier now,
   json_indented 4 0 (report_value comparison_output)).

(** [put_object] tells whether the request went through; [false] stands
    for the exception that the handler turns into [return None]. *)
Definition store_comparison_results_to_s3
  (bucket : string) (put_object : string * string * string -> bool)
  (now : timestamp)
  (db1_identifier db2_identifier : string) (comparison_output : ComparisonReport)
  : option string :=
  if negb (truthy (VStr bucket)) then None
  else
    let request := s3_request bucket now db1_identifier db2_identifier comparison_output in
    if put_object request then Some (snd (fst request)) else None.

(** *** [main]

    The arguments are the three strings that [argparse] hands over.  The
    second test of the arguments ([isinstance(fields_to_compare, list)]
    and every field a [str]) holds of every parsed list and is left out,
    as is the start-up code that leaves the process when the clients or
    [S3_BUCKET_NAME] are missing.  The text of the report built for the
    log message, [json.dumps(comparison_output, indent=2)], is left out
    with the logging: where that call raises, the process ends with a
    traceback before anything is stored or printed. *)

Record arguments : Type := {
  arg_db1_identifier : string;
  arg_db2_identifier : string;
  arg_fields_to_compare : string
}.

Record environment : Type := {
  describe_db_instances : string -> client_result;
  put_object : string * string * string -> bool;
  now : timestamp;
  S3_BUCKET_NAME : string
}.

(** How the process ends: [sys.exit(code)], or an exception that nothing
    catches. *)
Inductive termination : Type :=
| Exit (code : Z)
| Traceback (e : exn).


(** What a run of [main] does: the requests sent to S3, the dictionaries
    printed (each as [json.dumps(..., indent=2)]) and how it ends. *)
Record run : Type := {
  ending : termination;
  s3_requests : list (string * string * string);
  printed : list value
}.

Definition stdout (r : run) : list string :=
  map (json_indented 2 0) (printed r).

(** [compare_rds_fields] on whatever [get_rds_instance_details]
    returned.  On a truthy value that is not a dictionary the first
    [.get(field)] of the loop raises [AttributeError]. *)
Definition compare_details (db1_details db2_details : value)
  (fields_to_compare : list string) : result ComparisonReport :=
  if negb (truthy db1_details) || negb (truthy db2_details) then Ok error_report
  else
    match db1_details, db2_details with
    | VDict d1, VDict d2 => compare_rds_fields (Some d1) (Some d2) fields_to_compare
    | _, _ =>
        match fields_to_compare with
        | [] => Ok {| status := "SUCCESS";
                      message := "No differences found for specified fields.";
                      differences := [] |}
        | _ :: _ => Raise AttributeError
        end
    end.

Definition s3_location (bucket : string) (s3_object_key : option string) : value :=
  match s3_object_key with
  | Some key => VStr ("s3://" ++ bucket ++ "/" ++ key)
  | None => VStr "S3 storage failed."
  end.

Definition main (env : environment) (args : arguments) : run :=
  let db1_identifier := arg_db1_identifier args in
  let db2_identifier := arg_db2_identifier args in
  let fields_to_compare := parse_fields (arg_fields_to_compare args) in
  if negb (truthy (VStr db1_identifier) && truthy (VStr db2_identifier)
           && match fields_to_compare with [] => false | _ :: _ => true end)
  then {| ending := Exit 1; s3_requests := []; printed := [] |}
  else
    let db1_details := get_rds_instance_details (describe_db_instances env) db1_identifier in
    let db2_details := get_rds_instance_details (describe_db_instances env) db2_identifier in
    if negb (truthy db1_details) || negb (truthy db2_details)
    then {| ending := Exit 1; s3_requests := []; printed := [] |}
    else
      match compare_details db1_details db2_details fields_to_compare with
      | Raise e => {| ending := Traceback e; s3_requests := []; printed := [] |}
      | Ok comparison_output =>
          let s3_object_key :=
            store_comparison_results_to_s3 (S3_BUCKET_NAME env) (put_object env) (now env)
              db1_identifier db2_identifier comparison_output in
          let requests :=
            if negb (truthy (VStr (S3_BUCKET_NAME env))) then []
            else [s3_request (S3_BUCKET_NAME env) (now env)
                    db1_identifier db2_identifier comparison_output] in
          let location := s3_location (S3_BUCKET_NAME env) s3_object_key in
          if String.eqb (status comparison_output) "SUCCESS" then
            {| ending := Exit 0; s3_requests := requests;
               printed := [VDict [("status", VStr "SUCCESS");
                                  ("message", VStr "No differences found.");
                                  ("s3_location", location)]] |}
          else if String.eqb (status comparison_output) "DIFFERENCES_FOUND" then
            {| ending := Exit 1; s3_requests := requests;
               printed := [VDict [("status", VStr "DIFFERENCES_FOUND");
                                  ("message", VStr "Differences found.");
                                  ("differences",
                                   differences_value (differences comparison_output));
                                  ("s3_location", location)]] |}
          else
            {| ending := Exit 1; s3_requests := requests;
               printed := [VDict [("status", VStr "ERROR");
                                  ("message", VStr (message comparison_output));
                                  ("s3_location", location)]] |}
      end.

(** Swapping the two sides of an entry and of a report. *)
Definition mirror (d : FieldDifference) : FieldDifference :=
  {| db1 := db2 d; db2 := db1 d; diff := diff d |}.

Definition mirror_report (r : ComparisonReport) : ComparisonReport :=
  {| status := status r; message := message r;
     differences := map (fun e => (fst e, mirror (snd e))) (differences r) |}.

(** * Properties *)

Local Open Scope list_scope.

(** ** The result monad *)

Lemma bind_Ok {A B : Type} (r : result A) (k : A -> result B) (b : B) :
  bind r k = Ok b -> exists a, r = Ok a /\ k a = Ok b.
Proof. destruct r as [a|e]; simpl; [eauto | discriminate]. Qed.

Ltac bind_inv H :=
  let x := fresh "x" in
  let Hx := fresh "Hx" in
  apply bind_Ok in H; destruct H as (x & Hx & H).

(** ** Dictionaries *)

Lemma dict_lookup_In {A : Type} (d : list (string * A)) k v :
  dict_lookup d k = Some v -> In (k, v) d.
Proof.
  induction d as [|[k' v'] d IH]; simpl; [discriminate|].
  destruct (String.eqb_spec k' k) as [->|Hne].
  - intros [= ->]. now left.
  - intros H. right. auto.
Qed.

Lemma dict_lookup_key {A : Type} (d : list (string * A)) k :
  In k (map fst d) -> exists v, dict_lookup d k = Some v.
Proof.
  induction d as [|[k' v'] d IH]; simpl; [tauto|].
  destruct (String.eqb_spec k' k) as [->|Hne]; [eauto|].
  intros [H|H]; [congruence | auto].
Qed.

Lemma dict_lookup_None {A : Type} (d : list (string * A)) k :
  dict_lookup d k = None -> ~ In k (map fst d).
Proof.
  intros H Hin. apply dict_lookup_key in Hin as [v Hv]. congruence.
Qed.

Lemma dict_set_keys_old {A : Type} (d : list (string * A)) k v :
  In k (map fst d) -> map fst (dict_set d k v) = map fst d.
Proof.
  induction d as [|[k' v'] d IH]; simpl; [tauto|].
  destruct (String.eqb_spec k' k) as [->|Hne]; [reflexivity|].
  intros [H|H]; [congruence|]. simpl. now rewrite IH.
Qed.

Lemma dict_set_keys_new {A : Type} (d : list (string * A)) k v :
  ~ In k (map fst d) -> map fst (dict_set d k v) = map fst d ++ [k].
Proof.
  induction d as [|[k' v'] d IH]; simpl; [reflexivity|].
  destruct (String.eqb_spec k' k) as [->|Hne]; [tauto|].
  intros H. simpl. rewrite IH; tauto.
Qed.

Lemma dict_set_In {A : Type} (d : list (string * A)) k v k0 v0 :
  In (k0, v0) (dict_set d k v) -> (k0 = k /\ v0 = v) \/ In (k0, v0) d.
Proof.
  induction d as [|[k' v'] d IH]; simpl.
  - intros [[= <- <-]|[]]. now left.
  - destruct (String.eqb_spec k' k) as [->|Hne]; simpl.
    + intros [[= <- <-]|H]; [now left | right; now right].
    + intros [H|H]; [right; now left|].
      destruct (IH H) as [?|?]; [now left | right; now right].
Qed.

Lemma existsb_dict_set {A : Type} (g : A -> bool) (d : list (string * A)) k v :
  (forall v0, In (k, v0) d -> v0 = v) ->
  existsb (fun e => g (snd e)) (dict_set d k v)
  = g v || existsb (fun e => g (snd e)) d.
Proof.
  induction d as [|[k' v'] d IH]; simpl; intros Hsame.
  - reflexivity.
  - destruct (String.eqb_spec k' k) as [->|Hne]; simpl.
    + rewrite (Hsame v') by now left. now destruct (g v).
    + rewrite IH by (intros; apply Hsame; now right).
      destruct (g v), (g v'); reflexivity.
Qed.

(** ** First occurrences *)

Lemma filter_swap {A : Type} (p q : A -> bool) (l : list A) :
  filter p (filter q l) = filter q (filter p l).
Proof.
  induction l as [|y m IH]; simpl; [reflexivity|].
  destruct (p y) eqn:Hp, (q y) eqn:Hq; simpl; rewrite ?Hp, ?Hq, ?IH; reflexivity.
Qed.

Lemma filter_absorb {A : Type} (p q : A -> bool) (l : list A) :
  (forall y, q y = false -> p y = false) ->
  filter p (filter q l) = filter p l.
Proof.
  intros Hpq. induction l as [|y m IH]; simpl; [reflexivity|].
  destruct (q y) eqn:Hq; simpl; rewrite ?IH; [reflexivity|].
  now rewrite (Hpq y Hq).
Qed.

Lemma first_occurrences_filter (p : string -> bool) (l : list string) :
  first_occurrences (filter p l) = filter p (first_occurrences l).
Proof.
  induction l as [|x l IH]; simpl; [reflexivity|].
  destruct (p x) eqn:Hp; simpl; rewrite ?Hp, IH.
  - f_equal. apply filter_swap.
  - symmetry. apply filter_absorb.
    intros y Hy. apply negb_false_iff, String.eqb_eq in Hy. now subst.
Qed.

Lemma first_occurrences_In (l : list string) x :
  In x (first_occurrences l) <-> In x l.
Proof.
  induction l as [|y l IH]; simpl; [tauto|].
  rewrite filter_In, IH.
  destruct (String.eqb_spec y x) as [->|Hne]; simpl; intuition congruence.
Qed.

Lemma first_occurrences_NoDup (l : list string) : NoDup (first_occurrences l).
Proof.
  induction l as [|y l IH]; simpl; constructor.
  - rewrite filter_In. intros [_ H]. now rewrite String.eqb_refl in H.
  - now apply NoDup_filter.
Qed.

Lemma filter_both {A : Type} (p q : A -> bool) (l : list A) :
  filter p (filter q l) = filter (fun x => q x && p x) l.
Proof.
  induction l as [|y m IH]; simpl; [reflexivity|].
  destruct (q y) eqn:Hq; simpl; rewrite ?IH; reflexivity.
Qed.

Lemma existsb_eqb_In (f : string) (l : list string) :
  existsb (String.eqb f) l = true <-> In f l.
Proof.
  rewrite existsb_exists. split.
  - intros (x & Hin & Heq). apply String.eqb_eq in Heq. now subst.
  - intros Hin. exists f. split; [assumption | apply String.eqb_refl].
Qed.

(** ** The loop *)

Section Loop.

Variables a b : record.

Lemma entries_ok_set diffs f d :
  entries_ok a b diffs -> compare_field a b f = Ok d -> entries_ok a b (dict_set diffs f d).
Proof.
  intros Hok Hf k0 d0 Hin.
  apply dict_set_In in Hin as [[-> ->]|Hin]; auto.
Qed.

Lemma compare_loop_inv (fs : list string) :
  forall found acc found' diffs,
    compare_loop a b fs found acc = Ok (found', diffs) ->
    entries_ok a b acc ->
    found = existsb (fun e => diff (snd e)) acc ->
    entries_ok a b diffs /\
    found' = existsb (fun e => diff (snd e)) diffs /\
    map fst diffs = map fst acc ++ first_occurrences (filter (unseen acc) fs).
Proof.
  induction fs as [|f fs IH]; simpl; intros found acc found' diffs Hrun Hok Hfound.
  - injection Hrun as <- <-. now rewrite app_nil_r.
  - bind_inv Hrun. rename x into d.
    assert (Hsame : forall d0, In (f, d0) acc -> d0 = d).
    { intros d0 Hin. apply Hok in Hin. congruence. }
    apply IH in Hrun as (Hok' & Hfound' & Hkeys).
    + split; [assumption|]. split; [assumption|]. rewrite Hkeys.
      unfold unseen at 2.
      destruct (existsb (String.eqb f) (map fst acc)) eqn:Hseen; simpl.
      * apply existsb_eqb_In in Hseen.
        f_equal; [now apply dict_set_keys_old|].
        f_equal. apply filter_ext. intros g. unfold unseen.
        now rewrite dict_set_keys_old.
      * assert (Hnew : ~ In f (map fst acc)).
        { intros Hin. apply existsb_eqb_In in Hin. congruence. }
        rewrite dict_set_keys_new, <- app_assoc by assumption. simpl.
        do 2 f_equal.
        rewrite <- first_occurrences_filter, filter_both. f_equal.
        apply filter_ext. intros g. unfold unseen.
        rewrite dict_set_keys_new, existsb_app by assumption. simpl.
        rewrite orb_false_r, negb_orb, (String.eqb_sym g f). reflexivity.
    + now apply entries_ok_set.
    + rewrite existsb_dict_set by assumption. subst found.
      now destruct (diff d).
Qed.

(** The loop returns exactly when the body returns for every field. *)
Lemma compare_loop_returns (fs : list string) :
  forall found acc,
    (forall f, In f fs -> exists d, compare_field a b f = Ok d) ->
    exists st, compare_loop a b fs found acc = Ok st.
Proof.
  induction fs as [|f fs IH]; simpl; intros found acc Hall; [eauto|].
  destruct (Hall f (or_introl eq_refl)) as [d ->]. simpl.
  apply IH. intros g Hg. apply Hall. now right.
Qed.

Lemma compare_loop_body_returns (fs : list string) :
  forall found acc st,
    compare_loop a b fs found acc = Ok st ->
    forall f, In f fs -> exists d, compare_field a b f = Ok d.
Proof.
  induction fs as [|f fs IH]; simpl; intros found acc st Hrun g Hg; [tauto|].
  bind_inv Hrun. destruct Hg as [<-|Hg]; [eauto|].
  eapply IH; eassumption.
Qed.

End Loop.

(** ** The whole function *)

Lemma falsy_Some (d : record) : falsy (Some d) = false <-> d <> [].
Proof. destruct d; simpl; split; congruence. Qed.

Lemma falsy_false (x : option record) :
  falsy x = false -> exists d, x = Some d /\ d <> [].
Proof.
  destruct x as [d|]; [|discriminate].
  intros H. exists d. split; [reflexivity | now apply falsy_Some].
Qed.

Lemma compare_missing (x y : option record) (fs : list string) :
  falsy x = true \/ falsy y = true ->
  compare_rds_fields x y fs = Ok error_report.
Proof.
  intros H. unfold compare_rds_fields.
  destruct (falsy x), (falsy y); simpl; try reflexivity.
  destruct H; discriminate.
Qed.

(** With both records present, the report is assembled from the loop's
    final state. *)
Lemma compare_present (a b : record) (fs : list string) (r : ComparisonReport) :
  a <> [] -> b <> [] ->
  compare_rds_fields (Some a) (Some b) fs = Ok r ->
  entries_ok a b (differences r) /\
  map fst (differences r) = first_occurrences fs /\
  status r = (if any_differs r then "DIFFERENCES_FOUND" else "SUCCESS") /\
  message r = (if any_differs r
               then "Differences found for one or more specified fields."
               else "No differences found for specified fields.").
Proof.
  intros Ha Hb. unfold compare_rds_fields.
  apply falsy_Some in Ha, Hb. rewrite Ha, Hb. simpl.
  intros Hrun. bind_inv Hrun. destruct x as [found diffs].
  apply compare_loop_inv in Hx as (Hok & Hfound & Hkeys);
    [| intros ? ? [] | reflexivity].
  simpl in Hkeys.
  replace (filter (unseen []) fs) with fs in Hkeys
    by (symmetry; apply forallb_filter_id, forallb_forall; reflexivity).
  unfold any_differs.
  destruct found; injection Hrun as <-; simpl; rewrite <- Hfound; auto.
Qed.

Lemma compare_present_lookup (a b : record) (fs : list string) (r : ComparisonReport) :
  a <> [] -> b <> [] ->
  compare_rds_fields (Some a) (Some b) fs = Ok r ->
  forall f, In f fs ->
    exists d, dict_lookup (differences r) f = Some d /\ compare_field a b f = Ok d.
Proof.
  intros Ha Hb Hrun f Hf.
  destruct (compare_present a b fs r Ha Hb Hrun) as (Hok & Hkeys & _).
  assert (Hin : In f (map fst (differences r))).
  { rewrite Hkeys. now apply first_occurrences_In. }
  apply dict_lookup_key in Hin as [d Hd].
  exists d. split; [assumption|]. apply Hok. now apply dict_lookup_In.
Qed.

Lemma compare_returns (a b : record) (fs : list string) :
  a <> [] -> b <> [] ->
  (exists r, compare_rds_fields (Some a) (Some b) fs = Ok r) <->
  (forall f, In f fs -> exists d, compare_field a b f = Ok d).
Proof.
  intros Ha Hb. unfold compare_rds_fields.
  apply falsy_Some in Ha, Hb. rewrite Ha, Hb. simpl. split.
  - intros [r Hrun]. bind_inv Hrun.
    eapply compare_loop_body_returns; eassumption.
  - intros Hall.
    destruct (compare_loop_returns a b fs false [] Hall) as [[found diffs] ->].
    simpl. destruct found; eauto.
Qed.

(** ** Equality of values *)

Lemma py_eq_list (l m : list value) : py_eq (VList l) (VList m) = eq_items l m.
Proof. reflexivity. Qed.

Lemma py_lt_list (l m : list value) : py_lt (VList l) (VList m) = lex_lt l m.
Proof. reflexivity. Qed.

Lemma eq_items_Forall2 (l m : list value) :
  eq_items l m = true <-> Forall2 (fun x y => py_eq x y = true) l m.
Proof.
  revert m. induction l as [|x l IH]; intros [|y m]; simpl; split; intros H;
    try discriminate; try constructor; try (inversion H; fail).
  - now apply andb_true_iff in H.
  - apply IH. now apply andb_true_iff in H.
  - inversion H; subst. apply andb_true_iff. split; [assumption | now apply IH].
Qed.

Lemma py_eq_dict (d e : list (string * value)) :
  py_eq (VDict d) (VDict e) = true <->
  List.length d = List.length e /\
  forall k v, In (k, v) d ->
    exists w, dict_lookup e k = Some w /\ py_eq v w = true.
Proof.
  simpl. rewrite andb_true_iff, Nat.eqb_eq.
  apply and_iff_compat_l.
  induction d as [|[k v] d IH]; simpl.
  - split; [intros _ ? ? [] | reflexivity].
  - rewrite andb_true_iff, IH. split.
    + intros [Hkv Hd] k0 v0 [[= <- <-]|Hin]; [|now apply Hd].
      destruct (dict_lookup e k) as [w|]; [eauto | discriminate].
    + intros H. split.
      * destruct (H k v (or_introl eq_refl)) as (w & -> & Hw). exact Hw.
      * intros k0 v0 Hin. apply H. now right.
Qed.

Lemma keys_distinct_NoDup (ks : list string) :
  keys_distinct ks = true <-> NoDup ks.
Proof.
  induction ks as [|k ks IH]; simpl.
  - split; [constructor | reflexivity].
  - rewrite andb_true_iff, negb_true_iff, IH. split.
    + intros [Hk Hks]. constructor; [|assumption].
      intros Hin. apply existsb_eqb_In in Hin. congruence.
    + intros H. inversion H; subst. split; [|assumption].
      destruct (existsb (String.eqb k) ks) eqn:He; [|reflexivity].
      apply existsb_eqb_In in He. contradiction.
Qed.

Lemma wf_list (l : list value) :
  wf_value (VList l) = true <-> Forall (fun x => wf_value x = true) l.
Proof. simpl. rewrite forallb_forall, Forall_forall. reflexivity. Qed.

Lemma wf_dict (d : list (string * value)) :
  wf_value (VDict d) = true <->
  NoDup (map fst d) /\ Forall (fun kv => wf_value (snd kv) = true) d.
Proof.
  simpl. rewrite andb_true_iff, keys_distinct_NoDup.
  apply and_iff_compat_l.
  induction d as [|[k v] d IH]; simpl.
  - split; [constructor | reflexivity].
  - rewrite andb_true_iff, IH. split.
    + intros [Hv Hd]. now constructor.
    + intros H. inversion H; subst. now split.
Qed.

Lemma dict_lookup_NoDup {A : Type} (d : list (string * A)) k v :
  NoDup (map fst d) -> In (k, v) d -> dict_lookup d k = Some v.
Proof.
  induction d as [|[k' v'] d IH]; simpl; [tauto|].
  intros Hnd. inversion Hnd as [|? ? Hk Hd]; subst.
  intros [[= -> ->]|Hin].
  - now rewrite String.eqb_refl.
  - destruct (String.eqb_spec k' k) as [->|Hne]; [|auto].
    exfalso. apply Hk. apply in_map_iff. now exists (k, v).
Qed.

Lemma py_eq_refl (v : value) : wf_value v = true -> py_eq v v = true.
Proof.
  induction v as [| [] | n | s | l IH | d IH] using value_induction;
    intros Hwf; try reflexivity.
  - apply Z.eqb_refl.
  - apply String.eqb_refl.
  - rewrite py_eq_list. apply eq_items_Forall2.
    apply wf_list in Hwf.
    induction IH as [|x l Hx _ IHl]; constructor; inversion Hwf; subst; auto.
  - apply py_eq_dict. split; [reflexivity|].
    apply wf_dict in Hwf as [Hnd Hwf].
    intros k v Hin. exists v. split; [now apply dict_lookup_NoDup|].
    rewrite Forall_forall in IH, Hwf.
    apply (IH (k, v) Hin). apply (Hwf (k, v) Hin).
Qed.

Lemma py_eq_trans (a : value) :
  forall b c, py_eq a b = true -> py_eq b c = true -> py_eq a c = true.
Proof.
  induction a as [| x | n | s | l IH | d IH] using value_induction;
    intros b c Hab Hbc; destruct b; try discriminate Hab;
    destruct c; try discriminate Hbc; simpl in Hab, Hbc |- *;
    try (apply Z.eqb_eq in Hab, Hbc; apply Z.eqb_eq; congruence).
  - reflexivity.
  - apply String.eqb_eq in Hab, Hbc. apply String.eqb_eq. congruence.
  - change (eq_items l l0 = true) in Hab. change (eq_items l0 l1 = true) in Hbc.
    change (eq_items l l1 = true). rewrite eq_items_Forall2 in *.
    revert l0 l1 Hab Hbc.
    induction IH as [|x l Hx _ IHl]; intros l0 l1 Hab Hbc;
      inversion Hab; subst; inversion Hbc; subst; constructor; eauto.
  - change (py_eq (VDict d) (VDict d0) = true) in Hab.
    change (py_eq (VDict d0) (VDict d1) = true) in Hbc.
    change (py_eq (VDict d) (VDict d1) = true).
    rewrite py_eq_dict in *. destruct Hab as [Hlen1 Hab], Hbc as [Hlen2 Hbc].
    split; [congruence|].
    intros k v Hin. destruct (Hab k v Hin) as (w & Hw & Hvw).
    destruct (Hbc k w (dict_lookup_In _ _ _ Hw)) as (u & Hu & Hwu).
    exists u. split; [assumption|].
    rewrite Forall_forall in IH. exact (IH (k, v) Hin w u Hvw Hwu).
Qed.

Lemma py_eq_sym (a : value) :
  forall b, wf_value a = true -> wf_value b = true ->
    py_eq a b = true -> py_eq b a = true.
Proof.
  induction a as [| x | n | s | l IH | d IH] using value_induction;
    intros b Hwa Hwb Hab; destruct b; try discriminate Hab; simpl in Hab |- *;
    try (apply Z.eqb_eq in Hab; apply Z.eqb_eq; congruence).
  - reflexivity.
  - now rewrite String.eqb_sym.
  - change (eq_items l l0 = true) in Hab. change (eq_items l0 l = true).
    rewrite eq_items_Forall2 in *. apply wf_list in Hwa, Hwb.
    revert l0 Hwb Hab.
    induction IH as [|x l Hx _ IHl]; intros l0 Hwb Hab;
      inversion Hab; subst; constructor;
      inversion Hwa; subst; inversion Hwb; subst; auto.
  - change (py_eq (VDict d) (VDict d0) = true) in Hab.
    change (py_eq (VDict d0) (VDict d) = true).
    rewrite py_eq_dict in *. destruct Hab as [Hlen Hab].
    apply wf_dict in Hwa as [Hnd Hwd], Hwb as [Hnd0 Hwd0].
    split; [congruence|].
    assert (Hincl : incl (map fst d0) (map fst d)).
    { apply NoDup_length_incl; [assumption | rewrite !length_map; lia |].
      intros k Hk. apply in_map_iff in Hk as ([k' v] & <- & Hin).
      destruct (Hab k' v Hin) as (w & Hw & _).
      apply dict_lookup_In in Hw. apply in_map_iff. now exists (k', w). }
    intros k w Hin.
    assert (Hk : In k (map fst d)).
    { apply Hincl, in_map_iff. now exists (k, w). }
    apply dict_lookup_key in Hk as [v Hv]. exists v. split; [assumption|].
    apply dict_lookup_In in Hv.
    destruct (Hab k v Hv) as (w' & Hw' & Hvw).
    rewrite (dict_lookup_NoDup d0 k w Hnd0 Hin) in Hw'. injection Hw' as <-.
    rewrite Forall_forall in IH, Hwd, Hwd0.
    apply (IH (k, v) Hv w); [apply (Hwd (k, v) Hv) | apply (Hwd0 (k, w) Hin) | assumption].
Qed.

Lemma py_eq_comm (a b : value) :
  wf_value a = true -> wf_value b = true -> py_eq a b = py_eq b a.
Proof.
  intros Ha Hb.
  destruct (py_eq a b) eqn:Hab, (py_eq b a) eqn:Hba; try reflexivity.
  - apply py_eq_sym in Hab; congruence.
  - apply py_eq_sym in Hba; congruence.
Qed.

Lemma py_eq_compat (x x' y : value) :
  wf_value x = true -> wf_value x' = true -> wf_value y = true ->
  py_eq x x' = true -> py_eq x y = py_eq x' y.
Proof.
  intros Hx Hx' Hy Hxx'.
  destruct (py_eq x y) eqn:Hxy, (py_eq x' y) eqn:Hx'y; try reflexivity.
  - apply py_eq_sym in Hxx'; try assumption.
    rewrite (py_eq_trans _ _ _ Hxx' Hxy) in Hx'y. discriminate.
  - rewrite (py_eq_trans _ _ _ Hxx' Hx'y) in Hxy. discriminate.
Qed.

(** ** Order on strings *)

Lemma str_ltb_asym (s t : string) :
  String.ltb s t = true -> String.ltb t s = false.
Proof.
  unfold String.ltb. rewrite (String.compare_antisym t s).
  now destruct (String.compare s t).
Qed.

Lemma str_ltb_eq (s t : string) :
  String.ltb s t = false -> String.ltb t s = false -> s = t.
Proof.
  unfold String.ltb. rewrite (String.compare_antisym t s).
  destruct (String.compare s t) eqn:Hc; simpl; try discriminate.
  intros _ _. now apply String.compare_eq_iff.
Qed.

Lemma str_ltb_lt (s t : string) :
  String.ltb s t = true <-> String_as_OT.lt s t.
Proof.
  rewrite <- String_as_OT.cmp_lt. unfold String.ltb, String_as_OT.cmp.
  destruct (String.compare s t); split; congruence.
Qed.

Lemma str_ltb_negtrans (z x y : string) :
  String.ltb z x = false -> String.ltb z y = true -> String.ltb x y = true.
Proof.
  intros Hzx Hzy.
  destruct (String.ltb x z) eqn:Hxz.
  - apply str_ltb_lt. apply str_ltb_lt in Hxz, Hzy.
    eapply String_as_OT.lt_trans; eassumption.
  - now rewrite (str_ltb_eq _ _ Hxz Hzx).
Qed.

(** ** Order on values *)

Ltac wf_cons H :=
  let H1 := fresh "Hw" in
  let H2 := fresh "Hws" in
  inversion H as [|? ? H1 H2]; subst.

Lemma py_lt_compat (x : value) :
  forall x' y,
    wf_value x = true -> wf_value x' = true -> wf_value y = true ->
    py_eq x x' = true ->
    py_lt x y = py_lt x' y /\ py_lt y x = py_lt y x'.
Proof.
  induction x as [| b | n | s | l IH | d IH] using value_induction;
    intros x' y Hwx Hwx' Hwy Heq; destruct x'; try discriminate Heq;
    simpl in Heq.
  - destruct y; split; reflexivity.
  - apply Z.eqb_eq in Heq. destruct y; simpl; rewrite ?Heq; split; reflexivity.
  - apply Z.eqb_eq in Heq. destruct y; simpl; rewrite ?Heq; split; reflexivity.
  - apply Z.eqb_eq in Heq. destruct y; simpl; rewrite ?Heq; split; reflexivity.
  - apply Z.eqb_eq in Heq. destruct y; simpl; rewrite ?Heq; split; reflexivity.
  - apply String.eqb_eq in Heq. subst. split; reflexivity.
  - change (eq_items l l0 = true) in Heq.
    destruct y as [| | | | m |]; try (split; reflexivity).
    rewrite !py_lt_list. apply wf_list in Hwx, Hwx', Hwy.
    revert l0 m Hwx' Hwy Heq.
    induction IH as [|x0 l Hx0 _ IHl]; intros [|x0' l'] m Hwx' Hwy Heq;
      try discriminate Heq; [split; reflexivity|].
    simpl in Heq. apply andb_true_iff in Heq as [Hh Ht].
    wf_cons Hwx. wf_cons Hwx'.
    destruct m as [|y0 m]; [split; reflexivity|]. wf_cons Hwy. simpl.
    destruct (Hx0 x0' y0) as [E1 E2]; try assumption.
    destruct (IHl Hws l' m) as [E3 E4]; try assumption.
    rewrite <- (py_eq_compat x0 x0' y0) by assumption.
    rewrite (py_eq_comm y0 x0'), (py_eq_comm y0 x0) by assumption.
    rewrite <- (py_eq_compat x0 x0' y0) by assumption.
    rewrite E1, E2, E3, E4. split; reflexivity.
  - destruct y; split; reflexivity.
Qed.

Lemma py_lt_asym (x : value) :
  forall y, wf_value x = true -> wf_value y = true ->
    py_lt x y = Ok true -> py_lt y x = Ok false.
Proof.
  induction x as [| b | n | s | l IH | d IH] using value_induction;
    intros y Hwx Hwy Hlt; destruct y; try discriminate Hlt; simpl in Hlt |- *;
    try (injection Hlt as Hlt; f_equal; lia).
  - injection Hlt as Hlt. f_equal. now apply str_ltb_asym.
  - change (lex_lt l l0 = Ok true) in Hlt. change (lex_lt l0 l = Ok false).
    apply wf_list in Hwx, Hwy. revert l0 Hwy Hlt.
    induction IH as [|x0 l Hx0 _ IHl]; intros [|y0 m] Hwy Hlt;
      try discriminate Hlt; try reflexivity.
    wf_cons Hwx. wf_cons Hwy. simpl in Hlt |- *.
    rewrite (py_eq_comm y0 x0) by assumption.
    destruct (py_eq x0 y0); auto.
Qed.

Lemma py_lt_eq (x : value) :
  forall y, wf_value x = true -> wf_value y = true ->
    py_lt x y = Ok false -> py_lt y x = Ok false -> py_eq x y = true.
Proof.
  induction x as [| b | n | s | l IH | d IH] using value_induction;
    intros y Hwx Hwy Hxy Hyx; destruct y; try discriminate Hxy;
    simpl in Hxy, Hyx |- *;
    try (injection Hxy as Hxy; injection Hyx as Hyx; lia).
  - injection Hxy as Hxy; injection Hyx as Hyx.
    apply String.eqb_eq. now apply str_ltb_eq.
  - change (lex_lt l l0 = Ok false) in Hxy. change (lex_lt l0 l = Ok false) in Hyx.
    change (eq_items l l0 = true).
    apply wf_list in Hwx, Hwy. revert l0 Hwy Hxy Hyx.
    induction IH as [|x0 l Hx0 _ IHl]; intros [|y0 m] Hwy Hxy Hyx;
      try discriminate Hxy; try discriminate Hyx; try reflexivity.
    wf_cons Hwx. wf_cons Hwy. simpl in Hxy, Hyx |- *.
    rewrite (py_eq_comm y0 x0) in Hyx by assumption.
    destruct (py_eq x0 y0) eqn:E; simpl; [auto|].
    rewrite (Hx0 y0) in E by assumption. discriminate.
Qed.

Lemma py_lt_negtrans (z : value) :
  forall x y,
    wf_value z = true -> wf_value x = true -> wf_value y = true ->
    py_lt z x = Ok false -> py_lt z y = Ok true ->
    forall b, py_lt x y = Ok b -> b = true.
Proof.
  induction z as [| c | n | s | lz IH | d IH] using value_induction;
    intros x y Hwz Hwx Hwy Hzx Hzy b Hxy;
    destruct x; try discriminate Hzx; destruct y; try discriminate Hzy;
    simpl in Hzx, Hzy, Hxy;
    try (injection Hzx as Hzx; injection Hzy as Hzy; injection Hxy as <-; lia).
  - injection Hzx as Hzx; injection Hzy as Hzy; injection Hxy as <-.
    now apply (str_ltb_negtrans s).
  - change (lex_lt lz l = Ok false) in Hzx. change (lex_lt lz l0 = Ok true) in Hzy.
    change (lex_lt l l0 = Ok b) in Hxy.
    apply wf_list in Hwz, Hwx, Hwy. revert l l0 Hwx Hwy Hzx Hzy Hxy.
    induction IH as [|z0 zs Hz0 _ IHl]; intros [|x0 xs] [|y0 ys] Hwx Hwy Hzx Hzy Hxy;
      simpl in Hzx, Hzy, Hxy; try discriminate; try congruence.
    wf_cons Hwz. wf_cons Hwx. wf_cons Hwy.
    destruct (py_eq z0 x0) eqn:A, (py_eq z0 y0) eqn:B.
    + assert (C : py_eq x0 y0 = true).
      { rewrite <- (py_eq_compat z0 x0 y0); assumption. }
      rewrite C in Hxy. apply (IHl Hws xs ys); assumption.
    + assert (C : py_eq x0 y0 = false).
      { rewrite <- (py_eq_compat z0 x0 y0); assumption. }
      rewrite C in Hxy.
      destruct (py_lt_compat z0 x0 y0) as [E _]; try assumption. congruence.
    + assert (C : py_eq x0 y0 = false).
      { rewrite (py_eq_comm x0 y0), <- (py_eq_compat z0 y0 x0); assumption. }
      rewrite C in Hxy.
      destruct (py_lt_compat z0 y0 x0) as [_ E]; try assumption.
      destruct b; [reflexivity|].
      rewrite (py_lt_eq z0 x0) in A; try assumption; [discriminate | congruence].
    + destruct (py_eq x0 y0) eqn:C.
      * destruct (py_lt_compat x0 y0 z0) as [_ E]; try assumption. congruence.
      * apply (Hz0 x0 y0); assumption.
Qed.

(** ** Stable insertion sort over a strict weak order

    On a domain [D] where [ltb] is asymmetric and negatively transitive
    and where [E] is the equivalence of incomparable items, sorting two
    permutations of the same items gives lists that agree item by item up
    to [E]. *)

Section StableSort.

Context {A : Type}.
Variable ltb : A -> A -> bool.
Variable E : A -> A -> Prop.
Variable D : A -> Prop.

Hypothesis E_refl : forall x, D x -> E x x.
Hypothesis E_trans : forall x y z, D x -> D y -> D z -> E x y -> E y z -> E x z.
Hypothesis ltb_asym : forall x y, D x -> D y -> ltb x y = true -> ltb y x = false.
Hypothesis ltb_E : forall x y, D x -> D y -> ltb x y = false -> ltb y x = false -> E x y.
Hypothesis ltb_negtrans :
  forall z x y, D z -> D x -> D y -> ltb z x = false -> ltb z y = true -> ltb x y = true.
Hypothesis ltb_compat : forall z z' x, D z -> D z' -> D x -> E z z' -> ltb z x = ltb z' x.

Lemma insert_by_In (x : A) (s : list A) (y : A) :
  In y (insert_by ltb x s) <-> y = x \/ In y s.
Proof.
  induction s as [|z s IH]; simpl; [intuition congruence|].
  destruct (ltb z x); simpl; rewrite ?IH; intuition congruence.
Qed.

Lemma sort_by_In (l : list A) (y : A) : In y (sort_by ltb l) <-> In y l.
Proof.
  induction l as [|x l IH]; simpl; [tauto|].
  rewrite insert_by_In, IH. intuition congruence.
Qed.

Lemma sort_by_Forall (l : list A) : Forall D l -> Forall D (sort_by ltb l).
Proof.
  rewrite !Forall_forall. intros H y Hy. apply H. now apply sort_by_In.
Qed.

Lemma insert_by_Forall (x : A) (s : list A) :
  D x -> Forall D s -> Forall D (insert_by ltb x s).
Proof.
  rewrite !Forall_forall. intros Hx H y Hy.
  apply insert_by_In in Hy as [->|Hy]; auto.
Qed.

(** The outcome is sorted: no item is smaller than an earlier one. *)
Lemma insert_by_Sorted (x : A) (s : list A) :
  D x -> Forall D s ->
  Sorted (fun u v => ltb v u = false) s ->
  Sorted (fun u v => ltb v u = false) (insert_by ltb x s).
Proof.
  intros Hx Hs Hsorted.
  induction s as [|y s IH]; simpl; [repeat constructor|].
  inversion Hs as [|? ? Hy Hs']; subst.
  inversion Hsorted as [|? ? Hsorted' Hhd]; subst.
  destruct (ltb y x) eqn:Hyx.
  - constructor; [auto|].
    destruct s as [|z t]; simpl.
    + constructor. auto.
    + inversion Hhd; subst. destruct (ltb z x); constructor; auto.
  - repeat constructor; assumption.
Qed.

Lemma sort_by_Sorted (l : list A) :
  Forall D l -> Sorted (fun u v => ltb v u = false) (sort_by ltb l).
Proof.
  induction 1 as [|x l Hx Hl IH]; simpl; [constructor|].
  apply insert_by_Sorted; auto using sort_by_Forall.
Qed.

Lemma Forall2_E_refl (s : list A) : Forall D s -> Forall2 E s s.
Proof. induction 1; constructor; auto. Qed.

Lemma Forall2_E_trans (s1 s2 s3 : list A) :
  Forall D s1 -> Forall D s2 -> Forall D s3 ->
  Forall2 E s1 s2 -> Forall2 E s2 s3 -> Forall2 E s1 s3.
Proof.
  intros H1 H2 H3 H12. revert s3 H3.
  induction H12 as [|x y s1 s2 Hxy _ IH]; intros s3 H3 H23;
    inversion H23; subst; constructor;
    inversion H1; subst; inversion H2; subst; inversion H3; subst; eauto.
Qed.

Lemma insert_by_compat (x : A) (s1 s2 : list A) :
  D x -> Forall D s1 -> Forall D s2 -> Forall2 E s1 s2 ->
  Forall2 E (insert_by ltb x s1) (insert_by ltb x s2).
Proof.
  intros Hx H1 H2 H12.
  induction H12 as [|z z' s1 s2 Hzz' Hs IH]; simpl.
  - constructor; auto.
  - inversion H1; subst. inversion H2; subst.
    rewrite <- (ltb_compat z z' x) by assumption.
    destruct (ltb z x); repeat constructor; auto.
Qed.

Lemma insert_by_swap (x y : A) (s : list A) :
  D x -> D y -> Forall D s ->
  Forall2 E (insert_by ltb x (insert_by ltb y s))
            (insert_by ltb y (insert_by ltb x s)).
Proof.
  intros Hx Hy Hs.
  assert (Hhead : forall t, Forall D t ->
            Forall2 E
              (if ltb y x then y :: x :: t else x :: y :: t)
              (if ltb x y then x :: y :: t else y :: x :: t)).
  { intros t Ht. destruct (ltb y x) eqn:Hyx.
    - rewrite (ltb_asym y x) by assumption.
      repeat constructor; auto using Forall2_E_refl.
    - destruct (ltb x y) eqn:Hxy;
        repeat constructor; auto using Forall2_E_refl. }
  induction Hs as [|z s Hz Hs IH].
  - simpl. specialize (Hhead [] (Forall_nil D)).
    destruct (ltb y x), (ltb x y); exact Hhead.
  - simpl. destruct (ltb z y) eqn:Hzy, (ltb z x) eqn:Hzx; simpl.
    + rewrite Hzx, Hzy. constructor; auto.
    + rewrite Hzx, Hzy, (ltb_negtrans z x y) by assumption.
      repeat constructor; auto using Forall2_E_refl, insert_by_Forall.
    + rewrite Hzx, Hzy, (ltb_negtrans z y x) by assumption.
      repeat constructor; auto using Forall2_E_refl, insert_by_Forall.
    + specialize (Hhead (z :: s) (Forall_cons z Hz Hs)).
      destruct (ltb y x), (ltb x y); simpl; rewrite ?Hzx, ?Hzy; exact Hhead.
Qed.

Theorem sort_by_permutation (l1 l2 : list A) :
  Permutation l1 l2 -> Forall D l1 ->
  Forall2 E (sort_by ltb l1) (sort_by ltb l2).
Proof.
  induction 1 as [|x l1 l2 Hp IH|x y l|l1 l2 l3 Hp1 IH1 Hp2 IH2]; intros HD.
  - constructor.
  - inversion HD; subst. simpl.
    apply insert_by_compat; auto using sort_by_Forall.
    apply sort_by_Forall. eapply Permutation_Forall; eassumption.
  - inversion HD as [|? ? Hy HD']; subst. inversion HD' as [|? ? Hx HD'']; subst.
    simpl. apply insert_by_swap; auto using sort_by_Forall.
  - assert (HD2 : Forall D l2) by (eapply Permutation_Forall; eassumption).
    assert (HD3 : Forall D l3) by (eapply Permutation_Forall; eassumption).
    eapply Forall2_E_trans; [| | | apply IH1 | apply IH2];
      auto using sort_by_Forall.
Qed.

End StableSort.

(** ** [sorted] on mutually comparable items *)

Lemma mutually_comparable_spec (l : list value) :
  mutually_comparable l = true <->
  forall x y, In x l -> In y l -> comparable x y = true.
Proof.
  unfold mutually_comparable. rewrite forallb_forall. split.
  - intros H x y Hx Hy. specialize (H x Hx). rewrite forallb_forall in H. auto.
  - intros H x Hx. apply forallb_forall. auto.
Qed.

Lemma comparable_py_lt (x y : value) :
  comparable x y = true -> py_lt x y = Ok (py_ltb x y).
Proof.
  unfold comparable, py_ltb. now destruct (py_lt x y).
Qed.

Lemma insert_sorted_pure (x : value) (s : list value) :
  (forall y, In y s -> comparable y x = true) ->
  insert_sorted x s = Ok (insert_by py_ltb x s).
Proof.
  induction s as [|y s IH]; simpl; intros Hc; [reflexivity|].
  rewrite (comparable_py_lt y x) by auto. simpl.
  destruct (py_ltb y x); [|reflexivity].
  rewrite IH by auto. reflexivity.
Qed.

Lemma sorted_pure (l : list value) :
  mutually_comparable l = true -> sorted l = Ok (sort_by py_ltb l).
Proof.
  rewrite mutually_comparable_spec. intros Hc.
  assert (H : forall m, incl m l -> sorted m = Ok (sort_by py_ltb m)).
  { induction m as [|x m IH]; intros Hincl; [reflexivity|].
    simpl. rewrite IH by (intros y Hy; apply Hincl; now right). simpl.
    apply insert_sorted_pure. intros y Hy. apply sort_by_In in Hy.
    apply Hc; apply Hincl; [now right | now left]. }
  apply H, incl_refl.
Qed.

(** A list that [sorted] accepts comes back as a permutation of itself. *)
Lemma insert_sorted_Permutation (x : value) (s r : list value) :
  insert_sorted x s = Ok r -> Permutation (x :: s) r.
Proof.
  revert r. induction s as [|y s IH]; simpl; intros r H.
  - injection H as <-. reflexivity.
  - bind_inv H. destruct x0.
    + bind_inv H. injection H as <-.
      rewrite perm_swap. apply perm_skip. now apply IH.
    + injection H as <-. reflexivity.
Qed.

Lemma sorted_Permutation (l s : list value) :
  sorted l = Ok s -> Permutation l s.
Proof.
  revert s. induction l as [|x l IH]; simpl; intros s H.
  - injection H as <-. constructor.
  - bind_inv H. apply insert_sorted_Permutation in H.
    rewrite <- H. apply perm_skip. now apply IH.
Qed.

(** On well-formed, mutually comparable items [sorted] returns, and
    what it returns is the list put in ascending order. *)
Theorem sorted_sorts (l : list value) :
  Forall (fun x => wf_value x = true) l ->
  mutually_comparable l = true ->
  exists s,
    sorted l = Ok s /\ Permutation l s /\
    Sorted (fun u v => py_ltb v u = false) s.
Proof.
  intros Hwf Hc. exists (sort_by py_ltb l).
  pose proof (sorted_pure l Hc) as Hs.
  split; [exact Hs|]. split; [now apply sorted_Permutation|].
  rewrite Forall_forall in Hwf.
  apply (sort_by_Sorted py_ltb (fun x => wf_value x = true)).
  - intros x y Hx Hy H. unfold py_ltb in *.
    destruct (py_lt x y) as [[]|] eqn:Hxy; try discriminate.
    now rewrite (py_lt_asym x y).
  - now apply Forall_forall.
Qed.

(** Sorting two permutations of well-formed, mutually comparable items
    gives equal lists. *)
Theorem sorted_permutation (l1 l2 : list value) :
  Forall (fun x => wf_value x = true) l1 ->
  mutually_comparable l1 = true ->
  Permutation l1 l2 ->
  exists s1 s2,
    sorted l1 = Ok s1 /\ sorted l2 = Ok s2 /\ py_eq (VList s1) (VList s2) = true.
Proof.
  intros Hwf Hc Hp.
  assert (Hc2 : mutually_comparable l2 = true).
  { rewrite mutually_comparable_spec in *. intros x y Hx Hy.
    apply Hc; eapply Permutation_in; try eassumption; now symmetry. }
  exists (sort_by py_ltb l1), (sort_by py_ltb l2).
  split; [now apply sorted_pure|]. split; [now apply sorted_pure|].
  rewrite py_eq_list. apply eq_items_Forall2.
  rewrite mutually_comparable_spec in Hc. rewrite Forall_forall in Hwf.
  apply (sort_by_permutation py_ltb (fun x y => py_eq x y = true)
           (fun x => wf_value x = true /\ In x l1)).
  - intros x [Hx _]. now apply py_eq_refl.
  - intros x y z _ _ _. apply py_eq_trans.
  - intros x y [Hx _] [Hy _] H. unfold py_ltb in *.
    destruct (py_lt x y) as [[]|] eqn:Hxy; try discriminate.
    now rewrite (py_lt_asym x y).
  - intros x y [Hx Hix] [Hy Hiy] Hxy Hyx.
    apply py_lt_eq; try assumption.
    + rewrite comparable_py_lt by auto. now f_equal.
    + rewrite comparable_py_lt by auto. now f_equal.
  - intros z x y [Hz Hiz] [Hx Hix] [Hy Hiy] Hzx Hzy.
    apply (py_lt_negtrans z x y); try assumption.
    + rewrite comparable_py_lt by auto. now f_equal.
    + rewrite comparable_py_lt by auto. now f_equal.
    + apply comparable_py_lt. auto.
  - intros z z' x [Hz _] [Hz' _] [Hx _] Hzz'. unfold py_ltb.
    destruct (py_lt_compat z z' x) as [-> _]; auto.
  - assumption.
  - apply Forall_forall. intros x Hx. auto.
Qed.

(** ** Properties of the report *)

Lemma any_differs_spec (r : ComparisonReport) :
  any_differs r = true <->
  exists f d, In (f, d) (differences r) /\ diff d = true.
Proof.
  unfold any_differs. rewrite existsb_exists. split.
  - intros ([f d] & Hin & Hd). eauto.
  - intros (f & d & Hin & Hd). exists (f, d). auto.
Qed.

Lemma any_differs_none (r : ComparisonReport) :
  any_differs r = false <->
  forall f d, In (f, d) (differences r) -> diff d = false.
Proof.
  split.
  - intros H f d Hin. destruct (diff d) eqn:Hd; [|reflexivity].
    assert (any_differs r = true) by (apply any_differs_spec; eauto). congruence.
  - intros H. destruct (any_differs r) eqn:Hr; [|reflexivity].
    apply any_differs_spec in Hr as (f & d & Hin & Hd).
    rewrite (H f d Hin) in Hd. discriminate.
Qed.

(** C4, as amended.  If either record is [None], the function returns at
    once the report with status ["ERROR"], no differences and the one
    fixed message, whatever the field list; the message is the same
    whichever side is missing. *)
Theorem C4_absent_record_error (x y : option record) (fs : list string) :
  x = None \/ y = None ->
  compare_rds_fields x y fs
  = Ok {| status := "ERROR";
          message := "One or both DB instance details are missing for comparison.";
          differences := [] |}.
Proof.
  intros H. apply compare_missing. destruct H as [-> | ->]; auto.
Qed.

Lemma C4_absent_record_error_witness :
  ((None : option record) = None \/ Some [("Engine", VStr "mysql")] = None) /\
  compare_rds_fields None (Some [("Engine", VStr "mysql")]) ["Engine"]
  = Ok {| status := "ERROR";
          message := "One or both DB instance details are missing for comparison.";
          differences := [] |}.
Proof.
  split; [left; reflexivity|].
  apply (C4_absent_record_error None (Some [("Engine", VStr "mysql")]) ["Engine"]).
  left. reflexivity.
Defined.

(** C4 as stated fails: the message does not tell which side is missing.
    With the first record absent and with the second record absent the
    two reports carry the same message. *)
Lemma C4_message_does_not_name_the_side :
  exists r1 r2,
    compare_rds_fields None (Some [("Engine", VStr "mysql")]) ["Engine"] = Ok r1 /\
    compare_rds_fields (Some [("Engine", VStr "mysql")]) None ["Engine"] = Ok r2 /\
    message r1 = message r2.
Proof. exists error_report, error_report. repeat split. Qed.

(** C5.  For every report that the function returns: the status is
    ["ERROR"] exactly when a record was missing or empty, and then there
    are no differences; it is ["DIFFERENCES_FOUND"] exactly when no record
    was missing and some entry has [diff = True]; otherwise it is
    ["SUCCESS"] and every entry has [diff = False]. *)
Theorem C5_status_invariant (x y : option record) (fs : list string)
  (r : ComparisonReport) :
  compare_rds_fields x y fs = Ok r ->
  (status r = "ERROR" <-> falsy x = true \/ falsy y = true) /\
  (status r = "ERROR" -> differences r = []) /\
  (status r = "DIFFERENCES_FOUND" <->
     (falsy x = false /\ falsy y = false) /\
     exists f d, In (f, d) (differences r) /\ diff d = true) /\
  (status r <> "ERROR" -> status r <> "DIFFERENCES_FOUND" ->
     status r = "SUCCESS" /\
     forall f d, In (f, d) (differences r) -> diff d = false).
Proof.
  intros Hrun.
  destruct (falsy x) eqn:Hx; [|destruct (falsy y) eqn:Hy].
  - rewrite compare_missing in Hrun by auto. injection Hrun as <-. simpl.
    repeat split; try tauto; try discriminate; intros; intuition discriminate.
  - rewrite compare_missing in Hrun by auto. injection Hrun as <-. simpl.
    repeat split; try tauto; try discriminate; intros; intuition discriminate.
  - apply falsy_false in Hx as (a & -> & Ha), Hy as (b & -> & Hb).
    destruct (compare_present a b fs r Ha Hb Hrun) as (_ & _ & Hst & _).
    rewrite Hst. rewrite <- any_differs_spec, <- any_differs_none.
    destruct (any_differs r); repeat split;
      try discriminate; try tauto; intros; intuition discriminate.
Qed.

Lemma C5_status_invariant_witness :
  let a := [("Engine", VStr "mysql"); ("MultiAZ", VBool true)] in
  let b := [("Engine", VStr "postgres"); ("MultiAZ", VBool true)] in
  let r := {| status := "DIFFERENCES_FOUND";
              message := "Differences found for one or more specified fields.";
              differences :=
                [("Engine", {| db1 := VStr "mysql"; db2 := VStr "postgres"; diff := true |});
                 ("MultiAZ", {| db1 := VStr "True"; db2 := VStr "True"; diff := false |})] |} in
  compare_rds_fields (Some a) (Some b) ["Engine"; "MultiAZ"] = Ok r /\
  (status r = "DIFFERENCES_FOUND" <->
     (falsy (Some a) = false /\ falsy (Some b) = false) /\
     exists f d, In (f, d) (differences r) /\ diff d = true).
Proof.
  intros a b r. split; [reflexivity|].
  apply (C5_status_invariant (Some a) (Some b) ["Engine"; "MultiAZ"] r).
  reflexivity.
Defined.

(** C9.  A present but empty record is treated exactly like an absent
    one: whatever the other record and the field list, the function
    returns the ["ERROR"] report with no differences and compares no
    field (it returns even where a field comparison would raise). *)
Theorem C9_empty_record_is_absent (other : option record) (fs : list string) :
  compare_rds_fields (Some []) other fs = compare_rds_fields None other fs /\
  compare_rds_fields other (Some []) fs = compare_rds_fields other None fs /\
  compare_rds_fields (Some []) other fs = Ok error_report /\
  compare_rds_fields other (Some []) fs = Ok error_report /\
  status error_report = "ERROR" /\
  differences error_report = [].
Proof.
  rewrite !compare_missing by (simpl; auto). repeat split.
Qed.

(** C10.  With both records present and non-empty, the function returns
    a report exactly when the loop body returns for every requested
    field; the keys of its differences are then the distinct requested
    names in the order of their first occurrence, and the entry of each
    requested name, repeated or not, is the outcome of comparing that
    field. *)
Theorem C10_one_entry_per_field (a b : record) (fs : list string) :
  a <> [] -> b <> [] ->
  ((exists r, compare_rds_fields (Some a) (Some b) fs = Ok r) <->
   (forall f, In f fs -> exists d, compare_field a b f = Ok d)) /\
  forall r, compare_rds_fields (Some a) (Some b) fs = Ok r ->
    map fst (differences r) = first_occurrences fs /\
    NoDup (map fst (differences r)) /\
    (forall f, In f (map fst (differences r)) <-> In f fs) /\
    (forall f, In f fs ->
       exists d, dict_lookup (differences r) f = Some d /\
                 compare_field a b f = Ok d) /\
    (forall f d, In (f, d) (differences r) -> compare_field a b f = Ok d).
Proof.
  intros Ha Hb. split; [now apply compare_returns|].
  intros r Hrun.
  destruct (compare_present a b fs r Ha Hb Hrun) as (Hok & Hkeys & _).
  rewrite Hkeys. repeat split.
  - apply first_occurrences_NoDup.
  - apply first_occurrences_In.
  - apply first_occurrences_In.
  - now apply compare_present_lookup.
  - exact Hok.
Qed.

Lemma C10_one_entry_per_field_witness :
  let a := [("Engine", VStr "mysql"); ("MultiAZ", VBool true)] in
  let b := [("Engine", VStr "postgres"); ("MultiAZ", VBool true)] in
  let fs := ["MultiAZ"; "Engine"; "MultiAZ"; "Port"] in
  let r := {| status := "DIFFERENCES_FOUND";
              message := "Differences found for one or more specified fields.";
              differences :=
                [("MultiAZ", {| db1 := VStr "True"; db2 := VStr "True"; diff := false |});
                 ("Engine", {| db1 := VStr "mysql"; db2 := VStr "postgres"; diff := true |});
                 ("Port", {| db1 := VStr "None"; db2 := VStr "None"; diff := false |})] |} in
  (a <> [] /\ b <> []) /\
  compare_rds_fields (Some a) (Some b) fs = Ok r /\
  map fst (differences r) = first_occurrences fs /\
  NoDup (map fst (differences r)) /\
  (forall f, In f (map fst (differences r)) <-> In f fs) /\
  (forall f, In f fs ->
     exists d, dict_lookup (differences r) f = Some d /\
               compare_field a b f = Ok d) /\
  (forall f d, In (f, d) (differences r) -> compare_field a b f = Ok d).
Proof.
  intros a b fs r. split; [split; discriminate|]. split; [reflexivity|].
  apply (proj2 (C10_one_entry_per_field a b fs
                  ltac:(discriminate) ltac:(discriminate)) r).
  reflexivity.
Defined.

(** ** The loop body, branch by branch *)

Lemma compare_field_forms (a b : record) (f : string) (d : FieldDifference) :
  compare_field a b f = Ok d ->
  let v1 := dict_get a f in
  let v2 := dict_get b f in
  exists c1 c2,
    compared_forms f v1 v2 = Ok (c1, c2) /\
    diff d = py_ne c1 c2 /\
    (if is_list v1 && is_list v2 then
       if String.eqb f "VpcSecurityGroups"
       then db1 d = c1 /\ db2 d = c2
       else db1 d = v1 /\ db2 d = v2
     else if is_dict v1 && is_dict v2 then db1 d = v1 /\ db2 d = v2
     else db1 d = VStr (py_str v1) /\ db2 d = VStr (py_str v2)).
Proof.
  unfold compare_field, compared_forms. simpl.
  destruct (dict_get a f) as [| | | | l1 |d1] eqn:E1;
    destruct (dict_get b f) as [| | | | l2 |d2] eqn:E2; simpl;
    try (intros [= <-]; simpl; eexists _, _; repeat split; reflexivity).
  destruct (String.eqb f "VpcSecurityGroups").
  - destruct (ids <- sg_ids l1 ;; sorted ids) as [ids1|]; [|discriminate]. simpl.
    destruct (ids <- sg_ids l2 ;; sorted ids) as [ids2|]; [|discriminate]. simpl.
    intros [= <-]. simpl. eexists _, _; repeat split; reflexivity.
  - destruct (sorted l1) as [s1|]; [|discriminate]. simpl.
    destruct (sorted l2) as [s2|]; [|discriminate]. simpl.
    intros [= <-]. simpl. eexists _, _; repeat split; reflexivity.
Qed.

(** The third branch: the two values are not both lists and not both
    dictionaries.  It never raises. *)
Lemma compare_field_plain (a b : record) (f : string) :
  is_list (dict_get a f) && is_list (dict_get b f) = false ->
  is_dict (dict_get a f) && is_dict (dict_get b f) = false ->
  compare_field a b f
  = Ok {| db1 := VStr (py_str (dict_get a f));
          db2 := VStr (py_str (dict_get b f));
          diff := py_ne (dict_get a f) (dict_get b f) |}.
Proof.
  unfold compare_field.
  destruct (dict_get a f), (dict_get b f); simpl; try reflexivity; discriminate.
Qed.

(** The generic list branch. *)
Lemma compare_field_lists (a b : record) (f : string) (l1 l2 : list value) :
  String.eqb f "VpcSecurityGroups" = false ->
  dict_get a f = VList l1 -> dict_get b f = VList l2 ->
  compare_field a b f
  = (s1 <- sorted l1 ;; s2 <- sorted l2 ;;
     Ok {| db1 := VList l1; db2 := VList l2; diff := py_ne (VList s1) (VList s2) |}).
Proof.
  intros Hf H1 H2. unfold compare_field. now rewrite H1, H2, Hf.
Qed.

(** The security-group branch. *)
Lemma compare_field_security_groups (a b : record) (l1 l2 : list value) :
  dict_get a "VpcSecurityGroups" = VList l1 ->
  dict_get b "VpcSecurityGroups" = VList l2 ->
  compare_field a b "VpcSecurityGroups"
  = (ids1 <- (ids <- sg_ids l1 ;; sorted ids) ;;
     ids2 <- (ids <- sg_ids l2 ;; sorted ids) ;;
     Ok {| db1 := VList ids1; db2 := VList ids2;
           diff := py_ne (VList ids1) (VList ids2) |}).
Proof.
  intros H1 H2. unfold compare_field. now rewrite H1, H2.
Qed.

Lemma sg_ids_dicts (sgs : list (list (string * value))) :
  sg_ids (map VDict sgs) = Ok (filter truthy (map sg_id sgs)).
Proof.
  induction sgs as [|sg sgs IH]; simpl; [reflexivity|].
  rewrite IH. simpl. reflexivity.
Qed.

Lemma dict_get_missing (d : record) (f : string) :
  dict_lookup d f = None -> dict_get d f = VNone.
Proof. unfold dict_get. now intros ->. Qed.

Lemma dict_get_present (d : record) (f : string) (v : value) :
  dict_lookup d f = Some v -> dict_get d f = v.
Proof. unfold dict_get. now intros ->. Qed.

(** A stored entry is the one the loop body computes. *)
Lemma compare_present_entry (a b : record) (fs : list string)
  (r : ComparisonReport) (f : string) (d : FieldDifference) :
  a <> [] -> b <> [] ->
  compare_rds_fields (Some a) (Some b) fs = Ok r ->
  In f fs ->
  compare_field a b f = Ok d ->
  dict_lookup (differences r) f = Some d.
Proof.
  intros Ha Hb Hrun Hf Hd.
  destruct (compare_present_lookup a b fs r Ha Hb Hrun f Hf) as (d' & Hl & Hd').
  congruence.
Qed.

(** ** Properties of the entries *)

(** C1, as amended.  For present records and a requested field, the
    entry's [diff] flag is the inequality of the two normalized forms (the
    sorted identifier lists, the sorted lists, the key-sorted
    serializations, or the values themselves).  The entry holds those
    compared forms only for the security-group list; for other lists and
    for dictionaries it holds the two raw values, and for every other
    pair of values it holds the [str] text of each raw value. *)
Theorem C1_recorded_forms (a b : record) (fs : list string)
  (r : ComparisonReport) (f : string) :
  a <> [] -> b <> [] ->
  compare_rds_fields (Some a) (Some b) fs = Ok r ->
  In f fs ->
  let v1 := dict_get a f in
  let v2 := dict_get b f in
  exists d c1 c2,
    dict_lookup (differences r) f = Some d /\
    compared_forms f v1 v2 = Ok (c1, c2) /\
    diff d = py_ne c1 c2 /\
    (if is_list v1 && is_list v2 then
       if String.eqb f "VpcSecurityGroups"
       then db1 d = c1 /\ db2 d = c2
       else db1 d = v1 /\ db2 d = v2
     else if is_dict v1 && is_dict v2 then db1 d = v1 /\ db2 d = v2
     else db1 d = VStr (py_str v1) /\ db2 d = VStr (py_str v2)).
Proof.
  intros Ha Hb Hrun Hf v1 v2.
  destruct (compare_present_lookup a b fs r Ha Hb Hrun f Hf) as (d & Hl & Hd).
  destruct (compare_field_forms a b f d Hd) as (c1 & c2 & H).
  exists d, c1, c2. split; assumption.
Qed.

Lemma C1_recorded_forms_witness :
  let a := [("Tags", VList [VStr "b"; VStr "a"])] in
  let b := [("Tags", VList [VStr "a"; VStr "c"])] in
  let r := {| status := "DIFFERENCES_FOUND";
              message := "Differences found for one or more specified fields.";
              differences :=
                [("Tags", {| db1 := VList [VStr "b"; VStr "a"];
                             db2 := VList [VStr "a"; VStr "c"]; diff := true |})] |} in
  (a <> [] /\ b <> [] /\
   compare_rds_fields (Some a) (Some b) ["Tags"] = Ok r /\ In "Tags" ["Tags"]) /\
  exists d c1 c2,
    dict_lookup (differences r) "Tags" = Some d /\
    compared_forms "Tags" (dict_get a "Tags") (dict_get b "Tags") = Ok (c1, c2) /\
    diff d = py_ne c1 c2 /\
    db1 d = dict_get a "Tags" /\ db2 d = dict_get b "Tags".
Proof.
  intros a b r.
  split; [repeat split; try discriminate; now left|].
  apply (C1_recorded_forms a b ["Tags"] r "Tags");
    try discriminate; [reflexivity | now left].
Defined.

(** C1 as stated fails: for a list other than the security-group list
    the entry holds the raw lists, not the sorted lists that were
    compared. *)
Lemma C1_entry_holds_raw_lists :
  let a := [("Tags", VList [VStr "b"; VStr "a"])] in
  let b := [("Tags", VList [VStr "a"; VStr "b"])] in
  exists r d c1 c2,
    compare_rds_fields (Some a) (Some b) ["Tags"] = Ok r /\
    dict_lookup (differences r) "Tags" = Some d /\
    compared_forms "Tags" (dict_get a "Tags") (dict_get b "Tags") = Ok (c1, c2) /\
    c1 = VList [VStr "a"; VStr "b"] /\
    db1 d = VList [VStr "b"; VStr "a"] /\
    db1 d <> c1.
Proof.
  simpl. eexists _, _, _, _.
  split; [reflexivity|]. split; [reflexivity|]. split; [reflexivity|].
  split; [reflexivity|]. split; [reflexivity|]. discriminate.
Qed.

(** C2: the code raises where the claim promises a fallback.  Comparing
    a list of two dictionaries under a name other than
    [VpcSecurityGroups] lets the [TypeError] of [sorted] escape. *)
Theorem C2_unorderable_list_raises :
  let a := [("TagList", VList [VDict [("Key", VStr "env"); ("Value", VStr "prod")];
                               VDict [("Key", VStr "team"); ("Value", VStr "db")]])] in
  compare_rds_fields (Some a) (Some a) ["TagList"] = Raise TypeError.
Proof. reflexivity. Qed.

(** C3, as amended.  When the two values of a requested field are not
    both lists and not both dictionaries, the entry holds the [str] text
    of each value and [diff] is decided by [!=] on the raw values:
    numbers, booleans included, differ when their numeric values differ;
    strings differ when their texts differ; [None] equals [None]; every
    other pairing of kinds differs.  A boolean and an integer are
    therefore equal when they have the same numeric value. *)
Theorem C3_plain_values (a b : record) (fs : list string)
  (r : ComparisonReport) (f : string) :
  a <> [] -> b <> [] ->
  compare_rds_fields (Some a) (Some b) fs = Ok r ->
  In f fs ->
  let v1 := dict_get a f in
  let v2 := dict_get b f in
  is_list v1 && is_list v2 = false ->
  is_dict v1 && is_dict v2 = false ->
  exists d,
    dict_lookup (differences r) f = Some d /\
    db1 d = VStr (py_str v1) /\ db2 d = VStr (py_str v2) /\
    diff d = py_ne v1 v2 /\
    (forall n m, num_of v1 = Some n -> num_of v2 = Some m ->
       diff d = negb (n =? m)) /\
    (forall s t, v1 = VStr s -> v2 = VStr t -> diff d = negb (String.eqb s t)) /\
    (v1 = VNone -> v2 = VNone -> diff d = false) /\
    (kind_of v1 <> kind_of v2 -> is_number v1 && is_number v2 = false ->
       diff d = true).
Proof.
  intros Ha Hb Hrun Hf v1 v2 Hl Hd.
  pose proof (compare_field_plain a b f Hl Hd) as Hc.
  eexists. split; [exact (compare_present_entry a b fs r f _ Ha Hb Hrun Hf Hc)|].
  simpl. fold v1 v2. unfold py_ne. repeat split.
  - intros n m H1 H2. destruct v1, v2; simpl in *; congruence.
  - intros s t -> ->. reflexivity.
  - intros -> ->. reflexivity.
  - intros Hk Hn. destruct v1, v2; simpl in *; congruence.
Qed.

Lemma C3_plain_values_witness :
  let a := [("MultiAZ", VBool true); ("Port", VInt 3306)] in
  let b := [("MultiAZ", VInt 1); ("Port", VStr "3306")] in
  let r := {| status := "DIFFERENCES_FOUND";
              message := "Differences found for one or more specified fields.";
              differences :=
                [("MultiAZ", {| db1 := VStr "True"; db2 := VStr "1"; diff := false |});
                 ("Port", {| db1 := VStr "3306"; db2 := VStr "3306"; diff := true |})] |} in
  (a <> [] /\ b <> [] /\
   compare_rds_fields (Some a) (Some b) ["MultiAZ"; "Port"] = Ok r /\
   In "Port" ["MultiAZ"; "Port"]) /\
  exists d,
    dict_lookup (differences r) "Port" = Some d /\
    db1 d = VStr "3306" /\ db2 d = VStr "3306" /\
    diff d = true.
Proof.
  intros a b r.
  split; [repeat split; try discriminate; right; now left|].
  destruct (C3_plain_values a b ["MultiAZ"; "Port"] r "Port")
    as (d & Hl & H1 & H2 & H3 & _);
    try discriminate; try reflexivity; [right; now left|].
  exists d. repeat split; assumption.
Defined.

(** C3 as stated fails: a boolean and an integer are values of
    different kinds, yet [True] and [1] compare equal. *)
Lemma C3_bool_equals_int :
  let a := [("MultiAZ", VBool true)] in
  let b := [("MultiAZ", VInt 1)] in
  kind_of (dict_get a "MultiAZ") <> kind_of (dict_get b "MultiAZ") /\
  exists r,
    compare_rds_fields (Some a) (Some b) ["MultiAZ"] = Ok r /\
    dict_lookup (differences r) "MultiAZ"
    = Some {| db1 := VStr "True"; db2 := VStr "1"; diff := false |}.
Proof.
  simpl. split; [discriminate|]. eexists. split; reflexivity.
Qed.

(** C6, as amended.  A requested field that is missing from a record is
    read as [None], not as an error: the comparison does exactly what it
    does when the record holds [None] under that name.  Missing from both
    records, the field is compared and its entry has [diff = False].
    Missing from exactly one, whenever the comparison returns, the entry
    has [diff = True] unless the value on the other side is [None]
    itself, in which case [diff = False]. *)
Theorem C6_missing_field (a b : record) (f : string) :
  dict_lookup a f = None \/ dict_lookup b f = None ->
  (dict_lookup a f = None ->
     compare_field a b f = compare_field ((f, VNone) :: a) b f) /\
  (dict_lookup b f = None ->
     compare_field a b f = compare_field a ((f, VNone) :: b) f) /\
  (dict_lookup a f = None -> dict_lookup b f = None ->
     compare_field a b f
     = Ok {| db1 := VStr "None"; db2 := VStr "None"; diff := false |}) /\
  (forall d, compare_field a b f = Ok d ->
     db1 d = VStr (py_str (dict_get a f)) /\
     db2 d = VStr (py_str (dict_get b f)) /\
     (forall v, dict_lookup a f = None -> dict_lookup b f = Some v ->
        diff d = negb (is_none v)) /\
     (forall v, dict_lookup a f = Some v -> dict_lookup b f = None ->
        diff d = negb (is_none v)) /\
     (forall fs r, a <> [] -> b <> [] -> In f fs ->
        compare_rds_fields (Some a) (Some b) fs = Ok r ->
        dict_lookup (differences r) f = Some d)).
Proof.
  intros Hmiss.
  assert (Hc : compare_field a b f
               = Ok {| db1 := VStr (py_str (dict_get a f));
                       db2 := VStr (py_str (dict_get b f));
                       diff := py_ne (dict_get a f) (dict_get b f) |}).
  { apply compare_field_plain;
      destruct Hmiss as [H|H]; rewrite (dict_get_missing _ _ H);
      simpl; rewrite ?andb_false_r; reflexivity. }
  assert (Hhere : forall r : record, dict_get ((f, VNone) :: r) f = VNone).
  { intros r. unfold dict_get. simpl. now rewrite String.eqb_refl. }
  split; [|split; [|split]].
  - intros Ha. unfold compare_field.
    now rewrite Hhere, (dict_get_missing _ _ Ha).
  - intros Hb. unfold compare_field.
    now rewrite Hhere, (dict_get_missing _ _ Hb).
  - intros Ha Hb. rewrite Hc.
    now rewrite (dict_get_missing _ _ Ha), (dict_get_missing _ _ Hb).
  - intros d Hd. rewrite Hc in Hd. injection Hd as <-. simpl.
    split; [reflexivity|]. split; [reflexivity|]. split; [|split].
    + intros v Ha Hb.
      rewrite (dict_get_missing _ _ Ha), (dict_get_present _ _ _ Hb).
      now destruct v.
    + intros v Ha Hb.
      rewrite (dict_get_missing _ _ Hb), (dict_get_present _ _ _ Ha).
      now destruct v.
    + intros fs r Ha Hb Hf Hrun.
      exact (compare_present_entry a b fs r f _ Ha Hb Hrun Hf Hc).
Qed.

Lemma C6_missing_field_witness :
  let a := [("Engine", VStr "mysql"); ("DBName", VStr "orders")] in
  let b := [("Engine", VStr "mysql")] in
  let d := {| db1 := VStr "orders"; db2 := VStr "None"; diff := true |} in
  (dict_lookup a "DBName" = None \/ dict_lookup b "DBName" = None) /\
  compare_field a b "DBName" = Ok d /\
  compare_field a b "DBName" = compare_field a (("DBName", VNone) :: b) "DBName" /\
  diff d = negb (is_none (VStr "orders")).
Proof.
  intros a b d. split; [right; reflexivity|]. split; [reflexivity|].
  destruct (C6_missing_field a b "DBName") as (_ & Hb & _ & Hd);
    [right; reflexivity|].
  split; [exact (Hb eq_refl)|].
  destruct (Hd d eq_refl) as (_ & _ & _ & H & _).
  exact (H (VStr "orders") eq_refl eq_refl).
Defined.

(** C6 as stated fails: a field present with the value [None] on one
    side and missing on the other is absent from exactly one record, yet
    it compares equal. *)
Lemma C6_null_equals_missing :
  let a := [("Engine", VStr "mysql"); ("DBName", VNone)] in
  let b := [("Engine", VStr "mysql")] in
  dict_lookup a "DBName" = Some VNone /\
  dict_lookup b "DBName" = None /\
  exists r,
    compare_rds_fields (Some a) (Some b) ["DBName"] = Ok r /\
    dict_lookup (differences r) "DBName"
    = Some {| db1 := VStr "None"; db2 := VStr "None"; diff := false |}.
Proof.
  simpl. repeat split. eexists. split; reflexivity.
Qed.

(** C7, as amended.  For every field other than [VpcSecurityGroups]
    whose values on both sides are lists that are permutations of each
    other, with well-formed items every two of which can be compared with
    [<], the comparison returns and the entry has [diff = False]; it
    holds the two lists as given.  In particular [["b", "a"]] against
    [["a", "b"]] under [Tags] gives [diff = False]. *)
Theorem C7_list_order_insensitive :
  (forall (a b : record) (f : string) (l1 l2 : list value),
     f <> "VpcSecurityGroups" ->
     dict_get a f = VList l1 -> dict_get b f = VList l2 ->
     Forall (fun x => wf_value x = true) l1 ->
     mutually_comparable l1 = true ->
     Permutation l1 l2 ->
     compare_field a b f = Ok {| db1 := VList l1; db2 := VList l2; diff := false |} /\
     forall fs r, a <> [] -> b <> [] -> In f fs ->
       compare_rds_fields (Some a) (Some b) fs = Ok r ->
       dict_lookup (differences r) f
       = Some {| db1 := VList l1; db2 := VList l2; diff := false |}) /\
  compare_rds_fields (Some [("Tags", VList [VStr "b"; VStr "a"])])
                     (Some [("Tags", VList [VStr "a"; VStr "b"])]) ["Tags"]
  = Ok {| status := "SUCCESS";
          message := "No differences found for specified fields.";
          differences :=
            [("Tags", {| db1 := VList [VStr "b"; VStr "a"];
                         db2 := VList [VStr "a"; VStr "b"]; diff := false |})] |}.
Proof.
  split; [|reflexivity].
  intros a b f l1 l2 Hf H1 H2 Hwf Hc Hp.
  assert (Hd : compare_field a b f
               = Ok {| db1 := VList l1; db2 := VList l2; diff := false |}).
  { rewrite (compare_field_lists a b f l1 l2); try assumption;
      [|now apply String.eqb_neq].
    destruct (sorted_permutation l1 l2 Hwf Hc Hp) as (s1 & s2 & -> & -> & Heq).
    simpl. unfold py_ne. now rewrite Heq. }
  split; [exact Hd|].
  intros fs r Ha Hb Hin Hrun.
  exact (compare_present_entry a b fs r f _ Ha Hb Hrun Hin Hd).
Qed.

Lemma C7_list_order_insensitive_witness :
  let a := [("ReadReplicas", VList [VStr "r2"; VStr "r3"; VStr "r1"])] in
  let b := [("ReadReplicas", VList [VStr "r3"; VStr "r1"; VStr "r2"])] in
  ("ReadReplicas" <> "VpcSecurityGroups" /\
   Forall (fun x => wf_value x = true) [VStr "r2"; VStr "r3"; VStr "r1"] /\
   mutually_comparable [VStr "r2"; VStr "r3"; VStr "r1"] = true /\
   Permutation [VStr "r2"; VStr "r3"; VStr "r1"] [VStr "r3"; VStr "r1"; VStr "r2"]) /\
  compare_field a b "ReadReplicas"
  = Ok {| db1 := VList [VStr "r2"; VStr "r3"; VStr "r1"];
          db2 := VList [VStr "r3"; VStr "r1"; VStr "r2"]; diff := false |}.
Proof.
  intros a b.
  assert (Hp : Permutation [VStr "r2"; VStr "r3"; VStr "r1"]
                           [VStr "r3"; VStr "r1"; VStr "r2"]).
  { apply (Permutation_cons_app [VStr "r3"; VStr "r1"] []). reflexivity. }
  assert (Hwf : Forall (fun x => wf_value x = true) [VStr "r2"; VStr "r3"; VStr "r1"]).
  { repeat constructor. }
  split; [repeat split; [discriminate | exact Hwf | exact Hp]|].
  apply (proj1 C7_list_order_insensitive a b "ReadReplicas"
           [VStr "r2"; VStr "r3"; VStr "r1"] [VStr "r3"; VStr "r1"; VStr "r2"]);
    [discriminate | reflexivity | reflexivity | exact Hwf | reflexivity | exact Hp].
Defined.

(** C7 as stated fails for the field [VpcSecurityGroups]: two lists of
    strings that are permutations of each other make the comparison raise
    [AttributeError], since their items are not dictionaries. *)
Lemma C7_fails_on_security_group_field :
  let l1 := [VStr "b"; VStr "a"] in
  let l2 := [VStr "a"; VStr "b"] in
  Permutation l1 l2 /\
  mutually_comparable l1 = true /\
  compare_rds_fields (Some [("VpcSecurityGroups", VList l1)])
                     (Some [("VpcSecurityGroups", VList l2)]) ["VpcSecurityGroups"]
  = Raise AttributeError.
Proof.
  simpl. split; [apply perm_swap|]. split; reflexivity.
Qed.

(** C8, as amended.  For the field [VpcSecurityGroups] with a list of
    dictionaries on both sides, only the [VpcSecurityGroupId] values
    count: attachments whose identifier is missing or falsy are dropped
    and the remaining identifiers are sorted.  When the identifiers of the
    two sides are the same with the same multiplicities, in any order,
    (and are well-formed and mutually comparable, as strings are), the
    entry has [diff = False] and holds the two sorted identifier lists,
    whatever the other attributes of the attachments. *)
Theorem C8_security_group_ids (a b : record)
  (sgs1 sgs2 : list (list (string * value))) :
  dict_get a "VpcSecurityGroups" = VList (map VDict sgs1) ->
  dict_get b "VpcSecurityGroups" = VList (map VDict sgs2) ->
  let ids1 := filter truthy (map sg_id sgs1) in
  let ids2 := filter truthy (map sg_id sgs2) in
  Forall (fun x => wf_value x = true) ids1 ->
  mutually_comparable ids1 = true ->
  Permutation ids1 ids2 ->
  exists s1 s2,
    sorted ids1 = Ok s1 /\ sorted ids2 = Ok s2 /\
    compare_field a b "VpcSecurityGroups"
    = Ok {| db1 := VList s1; db2 := VList s2; diff := false |} /\
    forall fs r, a <> [] -> b <> [] -> In "VpcSecurityGroups" fs ->
      compare_rds_fields (Some a) (Some b) fs = Ok r ->
      dict_lookup (differences r) "VpcSecurityGroups"
      = Some {| db1 := VList s1; db2 := VList s2; diff := false |}.
Proof.
  intros H1 H2 ids1 ids2 Hwf Hc Hp.
  destruct (sorted_permutation ids1 ids2 Hwf Hc Hp) as (s1 & s2 & Hs1 & Hs2 & Heq).
  assert (Hd : compare_field a b "VpcSecurityGroups"
               = Ok {| db1 := VList s1; db2 := VList s2; diff := false |}).
  { rewrite (compare_field_security_groups a b _ _ H1 H2), !sg_ids_dicts.
    simpl. fold ids1 ids2. rewrite Hs1, Hs2. simpl.
    unfold py_ne. now rewrite Heq. }
  exists s1, s2. repeat split; try assumption.
  intros fs r Ha Hb Hin Hrun.
  exact (compare_present_entry a b fs r _ _ Ha Hb Hrun Hin Hd).
Qed.

Lemma C8_security_group_ids_witness :
  let sgs1 := [[("VpcSecurityGroupId", VStr "sg-2"); ("Status", VStr "active")];
               [("Status", VStr "removing")];
               [("VpcSecurityGroupId", VStr "sg-1"); ("Status", VStr "adding")]] in
  let sgs2 := [[("VpcSecurityGroupId", VStr "sg-1"); ("Status", VStr "active")];
               [("VpcSecurityGroupId", VStr "sg-2")]] in
  let a := [("VpcSecurityGroups", VList (map VDict sgs1))] in
  let b := [("VpcSecurityGroups", VList (map VDict sgs2))] in
  Permutation (filter truthy (map sg_id sgs1)) (filter truthy (map sg_id sgs2)) /\
  exists s1 s2,
    compare_field a b "VpcSecurityGroups"
    = Ok {| db1 := VList s1; db2 := VList s2; diff := false |} /\
    s1 = [VStr "sg-1"; VStr "sg-2"] /\ s2 = [VStr "sg-1"; VStr "sg-2"].
Proof.
  intros sgs1 sgs2 a b.
  assert (Hp : Permutation (filter truthy (map sg_id sgs1))
                           (filter truthy (map sg_id sgs2))).
  { apply perm_swap. }
  split; [exact Hp|].
  destruct (C8_security_group_ids a b sgs1 sgs2) as (s1 & s2 & Hs1 & Hs2 & Hd & _);
    [reflexivity | reflexivity | repeat constructor | reflexivity | exact Hp |].
  exists s1, s2. split; [exact Hd|].
  split; [injection Hs1 as <- | injection Hs2 as <-]; reflexivity.
Defined.

(** C8 as stated fails: the comparison depends on how often an
    identifier occurs, not only on the set of identifiers.  Two lists
    with the same set of identifiers, one of them naming [sg-1] twice,
    have [diff = True]. *)
Lemma C8_same_set_can_differ :
  let sgs1 := [[("VpcSecurityGroupId", VStr "sg-1"); ("Status", VStr "active")];
               [("VpcSecurityGroupId", VStr "sg-2"); ("Status", VStr "active")];
               [("VpcSecurityGroupId", VStr "sg-1"); ("Status", VStr "adding")]] in
  let sgs2 := [[("VpcSecurityGroupId", VStr "sg-2"); ("Status", VStr "active")];
               [("VpcSecurityGroupId", VStr "sg-1"); ("Status", VStr "active")]] in
  let a := [("VpcSecurityGroups", VList (map VDict sgs1))] in
  let b := [("VpcSecurityGroups", VList (map VDict sgs2))] in
  (forall id, In id (map sg_id sgs1) <-> In id (map sg_id sgs2)) /\
  exists r,
    compare_rds_fields (Some a) (Some b) ["VpcSecurityGroups"] = Ok r /\
    dict_lookup (differences r) "VpcSecurityGroups"
    = Some {| db1 := VList [VStr "sg-1"; VStr "sg-1"; VStr "sg-2"];
              db2 := VList [VStr "sg-1"; VStr "sg-2"]; diff := true |}.
Proof.
  simpl. split; [intros id; tauto|].
  eexists. split; reflexivity.
Qed.

(** ** Worked examples *)

Example repr_sample :
  py_str (VList [VStr "b"; VInt (-3); VBool true; VNone; VDict [("k", VStr "it's")]])
  = String.concat EmptyString
      ["['b', -3, True, None, {'k': "; String dquote "it's"; String dquote "}]"].
Proof. reflexivity. Qed.

Example json_sample :
  json_dumps (VDict [("b", VInt 0); ("a", VList [VBool false; VNone; VStr "x"])])
  = String.concat EmptyString
      ["{"; String dquote "a"; String dquote ": [false, null, "; String dquote "x";
       String dquote "], "; String dquote "b"; String dquote ": 0}"].
Proof. reflexivity. Qed.

(** The end-to-end scenario: only [DBInstanceClass] differs. *)
Example scenario :
  let a := [("DBInstanceClass", VStr "db.t3.micro"); ("MultiAZ", VBool true);
            ("VpcSecurityGroups", VList [VDict [("VpcSecurityGroupId", VStr "sg-1")]])] in
  let b := [("DBInstanceClass", VStr "db.t3.small"); ("MultiAZ", VBool true);
            ("VpcSecurityGroups", VList [VDict [("VpcSecurityGroupId", VStr "sg-1")]])] in
  compare_rds_fields (Some a) (Some b) ["DBInstanceClass"; "MultiAZ"; "VpcSecurityGroups"]
  = Ok {| status := "DIFFERENCES_FOUND";
          message := "Differences found for one or more specified fields.";
          differences :=
            [("DBInstanceClass", {| db1 := VStr "db.t3.micro"; db2 := VStr "db.t3.small"; diff := true |});
             ("MultiAZ", {| db1 := VStr "True"; db2 := VStr "True"; diff := false |});
             ("VpcSecurityGroups", {| db1 := VList [VStr "sg-1"]; db2 := VList [VStr "sg-1"]; diff := false |})] |}.
Proof. reflexivity. Qed.

(** ** Further properties of [compare_rds_fields] *)

Section LoopRepetitions.

Variables a b : record.

Lemma dict_set_same {A : Type} (d : list (string * A)) k v :
  dict_lookup d k = Some v -> dict_set d k v = d.
Proof.
  induction d as [|[k' v'] d IH]; simpl; [discriminate|].
  destruct (String.eqb_spec k' k) as [->|Hne].
  - now intros [= ->].
  - intros H. now rewrite IH.
Qed.

Lemma dict_set_keeps_keys {A : Type} (d : list (string * A)) k v f :
  In f (map fst d) -> In f (map fst (dict_set d k v)).
Proof.
  intros Hf. destruct (in_dec string_dec k (map fst d)) as [Hk|Hk].
  - now rewrite dict_set_keys_old.
  - rewrite dict_set_keys_new by assumption. apply in_or_app. now left.
Qed.

Lemma dict_set_has_key {A : Type} (d : list (string * A)) k v :
  In k (map fst (dict_set d k v)).
Proof.
  destruct (in_dec string_dec k (map fst d)) as [Hk|Hk].
  - now rewrite dict_set_keys_old.
  - rewrite dict_set_keys_new by assumption. apply in_or_app. right. now left.
Qed.

(** The state of the loop after a step still describes its entries. *)
Lemma loop_state_step found acc f d :
  entries_ok a b acc ->
  found = existsb (fun e => diff (snd e)) acc ->
  compare_field a b f = Ok d ->
  entries_ok a b (dict_set acc f d) /\
  (if diff d then true else found)
  = existsb (fun e => diff (snd e)) (dict_set acc f d).
Proof.
  intros Hok Hfound Hd. split; [now apply entries_ok_set|].
  rewrite existsb_dict_set.
  - subst found. now destruct (diff d).
  - intros d0 Hin. apply Hok in Hin. congruence.
Qed.

(** A field that already has its entry leaves the state as it is. *)
Lemma compare_loop_seen f fs found acc :
  entries_ok a b acc ->
  found = existsb (fun e => diff (snd e)) acc ->
  In f (map fst acc) ->
  compare_loop a b (f :: fs) found acc = compare_loop a b fs found acc.
Proof.
  intros Hok Hfound Hin.
  apply dict_lookup_key in Hin as [d Hd].
  pose proof (dict_lookup_In _ _ _ Hd) as Hmem.
  simpl. rewrite (Hok f d Hmem). simpl.
  rewrite (dict_set_same _ _ _ Hd).
  destruct (diff d) eqn:Hdiff; [|reflexivity].
  replace found with true; [reflexivity|].
  subst found. symmetry. apply existsb_exists. exists (f, d). auto.
Qed.

Lemma compare_loop_skip_seen f fs :
  forall found acc,
    entries_ok a b acc ->
    found = existsb (fun e => diff (snd e)) acc ->
    In f (map fst acc) ->
    compare_loop a b fs found acc
    = compare_loop a b (filter (fun y => negb (String.eqb f y)) fs) found acc.
Proof.
  induction fs as [|g fs IH]; intros found acc Hok Hfound Hin; [reflexivity|].
  simpl filter. destruct (String.eqb_spec f g) as [<-|Hne]; simpl negb; cbv iota.
  - rewrite compare_loop_seen by assumption. now apply IH.
  - simpl. destruct (compare_field a b g) as [d|e] eqn:Hg; [|reflexivity]. simpl.
    destruct (loop_state_step found acc g d Hok Hfound Hg) as [Hok' Hfound'].
    apply IH; [assumption | now symmetry | now apply dict_set_keeps_keys].
Qed.

Lemma compare_loop_first_occurrences fs :
  forall found acc,
    entries_ok a b acc ->
    found = existsb (fun e => diff (snd e)) acc ->
    compare_loop a b fs found acc
    = compare_loop a b (first_occurrences fs) found acc.
Proof.
  induction fs as [|f fs IH]; intros found acc Hok Hfound; [reflexivity|].
  simpl. destruct (compare_field a b f) as [d|e] eqn:Hf; [|reflexivity]. simpl.
  destruct (loop_state_step found acc f d Hok Hfound Hf) as [Hok' Hfound'].
  rewrite IH by (assumption || now symmetry).
  apply compare_loop_skip_seen;
    [assumption | now symmetry | apply dict_set_has_key].
Qed.

Lemma compare_loop_first_error pre f post e :
  (forall g, In g pre -> exists d, compare_field a b g = Ok d) ->
  compare_field a b f = Raise e ->
  forall found acc,
    compare_loop a b (pre ++ f :: post) found acc = Raise e.
Proof.
  intros Hpre Hf. induction pre as [|g pre IH]; intros found acc; simpl.
  - now rewrite Hf.
  - destruct (Hpre g (or_introl eq_refl)) as [d ->]. simpl.
    apply IH. intros h Hh. apply Hpre. now right.
Qed.

End LoopRepetitions.

(** X3.  Asking for a field more than once changes nothing: the function
    returns, or raises, exactly what it does on the list of first
    occurrences. *)
Theorem repeated_fields_are_harmless (x y : option record) (fs : list string) :
  compare_rds_fields x y fs = compare_rds_fields x y (first_occurrences fs).
Proof.
  unfold compare_rds_fields.
  destruct (falsy x || falsy y); [reflexivity|].
  destruct x as [a|], y as [b|]; try reflexivity.
  rewrite (compare_loop_first_occurrences a b fs false []);
    [reflexivity | intros ? ? [] | reflexivity].
Qed.

(** X4.  The exception that escapes is that of the first requested field whose
    comparison raises. *)
Theorem first_failing_field_decides (a b : record) (pre post : list string)
  (f : string) (e : exn) :
  a <> [] -> b <> [] ->
  (forall g, In g pre -> exists d, compare_field a b g = Ok d) ->
  compare_field a b f = Raise e ->
  compare_rds_fields (Some a) (Some b) (pre ++ f :: post) = Raise e.
Proof.
  intros Ha Hb Hpre Hf. unfold compare_rds_fields.
  apply falsy_Some in Ha, Hb. rewrite Ha, Hb. simpl.
  now rewrite (compare_loop_first_error a b pre f post e Hpre Hf).
Qed.

Lemma first_failing_field_decides_witness :
  let a := [("Engine", VStr "mysql");
            ("VpcSecurityGroups", VList [VStr "sg-1"]);
            ("TagList", VList [VDict [("Key", VStr "env")]; VDict [("Key", VStr "team")]])] in
  compare_rds_fields (Some a) (Some a) ["Engine"; "VpcSecurityGroups"; "TagList"]
  = Raise AttributeError.
Proof.
  intros a.
  apply (first_failing_field_decides a a ["Engine"] ["TagList"] "VpcSecurityGroups");
    try discriminate; [|reflexivity].
  intros g [<-|[]]. eexists. reflexivity.
Defined.

(** *** Well-formedness is kept by the operations of the loop body *)

Lemma wf_dict_get (d : list (string * value)) (k : string) :
  wf_value (VDict d) = true -> wf_value (dict_get d k) = true.
Proof.
  intros Hwf. apply wf_dict in Hwf as [_ Hwf]. unfold dict_get.
  destruct (dict_lookup d k) as [v|] eqn:Hl; [|reflexivity].
  apply dict_lookup_In in Hl. rewrite Forall_forall in Hwf.
  exact (Hwf (k, v) Hl).
Qed.

Lemma sg_ids_wf (l ids : list value) :
  Forall (fun x => wf_value x = true) l ->
  sg_ids l = Ok ids ->
  Forall (fun x => wf_value x = true) ids.
Proof.
  intros Hwf. revert ids.
  induction Hwf as [|sg l Hsg Hl IH]; simpl; intros ids H.
  - injection H as <-. constructor.
  - bind_inv H. bind_inv H. injection H as <-.
    destruct sg; try discriminate Hx. injection Hx as <-.
    destruct (truthy (dict_get d "VpcSecurityGroupId")); auto.
    constructor; auto. now apply wf_dict_get.
Qed.

Lemma sorted_wf (l s : list value) :
  Forall (fun x => wf_value x = true) l ->
  sorted l = Ok s ->
  Forall (fun x => wf_value x = true) s.
Proof.
  intros Hwf Hs. eapply Permutation_Forall; [|exact Hwf].
  now apply sorted_Permutation.
Qed.

Lemma sorted_ids_wf (l s : list value) :
  wf_value (VList l) = true ->
  (ids <- sg_ids l ;; sorted ids) = Ok s ->
  wf_value (VList s) = true.
Proof.
  intros Hwf H. bind_inv H. apply wf_list.
  apply (sorted_wf x); [|assumption].
  apply (sg_ids_wf l); [now apply wf_list | assumption].
Qed.

Lemma sorted_list_wf (l s : list value) :
  wf_value (VList l) = true -> sorted l = Ok s -> wf_value (VList s) = true.
Proof.
  intros Hwf H. apply wf_list. apply (sorted_wf l); [now apply wf_list | assumption].
Qed.

Lemma py_ne_comm (u v : value) :
  wf_value u = true -> wf_value v = true -> py_ne u v = py_ne v u.
Proof. intros Hu Hv. unfold py_ne. now rewrite (py_eq_comm u v). Qed.

Lemma py_ne_refl (v : value) : wf_value v = true -> py_ne v v = false.
Proof. intros Hv. unfold py_ne. now rewrite py_eq_refl. Qed.

(** *** A record against itself *)

Lemma compare_field_same (a : record) (f : string) (d : FieldDifference) :
  wf_value (VDict a) = true ->
  compare_field a a f = Ok d ->
  diff d = false /\ db1 d = db2 d.
Proof.
  intros Hwf. pose proof (wf_dict_get a f Hwf) as Hv.
  unfold compare_field.
  destruct (dict_get a f) as [| | | |l|e] eqn:E;
    try (intros [= <-]; simpl; split; [now apply py_ne_refl | reflexivity]).
  - destruct (String.eqb f "VpcSecurityGroups").
    + destruct (ids <- sg_ids l ;; sorted ids) as [ids|] eqn:Hids; [|discriminate].
      simpl. intros [= <-]. simpl. split; [|reflexivity].
      apply py_ne_refl. now apply (sorted_ids_wf l).
    + destruct (sorted l) as [s|] eqn:Hs; [|discriminate].
      simpl. intros [= <-]. simpl. split; [|reflexivity].
      apply py_ne_refl. now apply (sorted_list_wf l).
  - intros [= <-]. simpl. split; [|reflexivity].
    now rewrite String.eqb_refl.
Qed.

(** X1.  Comparing a record with itself never reports a difference: whenever
    the function returns, the status is ["SUCCESS"] and every entry has
    [diff = False] and the same value on both sides. *)
Theorem identical_records_have_no_differences (a : record) (fs : list string)
  (r : ComparisonReport) :
  wf_value (VDict a) = true ->
  a <> [] ->
  compare_rds_fields (Some a) (Some a) fs = Ok r ->
  status r = "SUCCESS" /\
  message r = "No differences found for specified fields." /\
  forall f d, In (f, d) (differences r) -> diff d = false /\ db1 d = db2 d.
Proof.
  intros Hwf Ha Hrun.
  destruct (compare_present a a fs r Ha Ha Hrun) as (Hok & _ & Hst & Hmsg).
  assert (Hall : forall f d, In (f, d) (differences r) ->
                   diff d = false /\ db1 d = db2 d).
  { intros f d Hin. apply (compare_field_same a f d Hwf). now apply Hok. }
  assert (Hnone : any_differs r = false).
  { apply any_differs_none. intros f d Hin. now apply (Hall f d). }
  rewrite Hnone in Hst, Hmsg. auto.
Qed.

Lemma identical_records_have_no_differences_witness :
  let a := [("Engine", VStr "mysql");
            ("ReadReplicas", VList [VStr "r2"; VStr "r1"]);
            ("Endpoint", VDict [("Port", VInt 3306); ("Address", VStr "db.local")]);
            ("VpcSecurityGroups",
             VList [VDict [("VpcSecurityGroupId", VStr "sg-1"); ("Status", VStr "active")]])] in
  let fs := ["Endpoint"; "VpcSecurityGroups"; "ReadReplicas"; "Engine"; "Missing"] in
  exists r,
    compare_rds_fields (Some a) (Some a) fs = Ok r /\
    status r = "SUCCESS" /\
    message r = "No differences found for specified fields." /\
    forall f d, In (f, d) (differences r) -> diff d = false /\ db1 d = db2 d.
Proof.
  intros a fs. eexists. split; [reflexivity|].
  apply (identical_records_have_no_differences a fs);
    [reflexivity | discriminate | reflexivity].
Defined.

(** *** Swapping the two records *)

Lemma compare_field_mirror (a b : record) (f : string) (d : FieldDifference) :
  wf_value (VDict a) = true -> wf_value (VDict b) = true ->
  compare_field a b f = Ok d ->
  compare_field b a f = Ok (mirror d).
Proof.
  intros Hwa Hwb.
  pose proof (wf_dict_get a f Hwa) as Hv1.
  pose proof (wf_dict_get b f Hwb) as Hv2.
  unfold compare_field.
  destruct (dict_get a f) as [| | | |l1|e1] eqn:E1;
    destruct (dict_get b f) as [| | | |l2|e2] eqn:E2;
    try (intros [= <-]; unfold mirror; simpl; f_equal; f_equal;
         now apply py_ne_comm).
  - destruct (String.eqb f "VpcSecurityGroups").
    + destruct (ids <- sg_ids l1 ;; sorted ids) as [ids1|] eqn:H1; [|discriminate].
      simpl.
      destruct (ids <- sg_ids l2 ;; sorted ids) as [ids2|] eqn:H2; [|discriminate].
      simpl. intros [= <-]. unfold mirror. simpl. f_equal. f_equal.
      apply py_ne_comm; [now apply (sorted_ids_wf l2) | now apply (sorted_ids_wf l1)].
    + destruct (sorted l1) as [s1|] eqn:H1; [|discriminate]. simpl.
      destruct (sorted l2) as [s2|] eqn:H2; [|discriminate]. simpl.
      intros [= <-]. unfold mirror. simpl. f_equal. f_equal.
      apply py_ne_comm; [now apply (sorted_list_wf l2) | now apply (sorted_list_wf l1)].
  - intros [= <-]. unfold mirror. simpl. f_equal. f_equal.
    now rewrite String.eqb_sym.
Qed.

Lemma dict_set_map {A B : Type} (g : A -> B) (d : list (string * A)) k v :
  dict_set (map (fun e => (fst e, g (snd e))) d) k (g v)
  = map (fun e => (fst e, g (snd e))) (dict_set d k v).
Proof.
  induction d as [|[k' v'] d IH]; simpl; [reflexivity|].
  destruct (String.eqb k' k); simpl; [reflexivity | now rewrite IH].
Qed.

Lemma compare_loop_mirror (a b : record) (fs : list string) :
  wf_value (VDict a) = true -> wf_value (VDict b) = true ->
  forall found acc found' diffs,
    compare_loop a b fs found acc = Ok (found', diffs) ->
    compare_loop b a fs found (map (fun e => (fst e, mirror (snd e))) acc)
    = Ok (found', map (fun e => (fst e, mirror (snd e))) diffs).
Proof.
  intros Hwa Hwb.
  induction fs as [|f fs IH]; simpl; intros found acc found' diffs H.
  - now injection H as <- <-.
  - bind_inv H. rewrite (compare_field_mirror a b f x Hwa Hwb Hx). simpl.
    rewrite (dict_set_map mirror). now apply IH.
Qed.

(** X2.  Swapping the two records swaps the two sides of every entry and
    changes nothing else: same status, same message, same fields in the
    same order, same [diff] flags. *)
Theorem swapping_records_mirrors_the_report (a b : record) (fs : list string)
  (r : ComparisonReport) :
  wf_value (VDict a) = true -> wf_value (VDict b) = true ->
  compare_rds_fields (Some a) (Some b) fs = Ok r ->
  compare_rds_fields (Some b) (Some a) fs = Ok (mirror_report r).
Proof.
  intros Hwa Hwb. unfold compare_rds_fields.
  rewrite (orb_comm (falsy (Some b))).
  destruct (falsy (Some a) || falsy (Some b)).
  - now intros [= <-].
  - intros H. bind_inv H. destruct x as [found diffs].
    pose proof (compare_loop_mirror a b fs Hwa Hwb _ _ _ _ Hx) as Hm.
    simpl in Hm. rewrite Hm. simpl.
    destruct found; injection H as <-; reflexivity.
Qed.

Lemma swapping_records_mirrors_the_report_witness :
  let a := [("Engine", VStr "mysql"); ("Tags", VList [VStr "b"; VStr "a"])] in
  let b := [("Engine", VStr "postgres"); ("Tags", VList [VStr "a"; VStr "c"])] in
  compare_rds_fields (Some b) (Some a) ["Tags"; "Engine"]
  = Ok {| status := "DIFFERENCES_FOUND";
          message := "Differences found for one or more specified fields.";
          differences :=
            [("Tags", {| db1 := VList [VStr "a"; VStr "c"];
                         db2 := VList [VStr "b"; VStr "a"]; diff := true |});
             ("Engine", {| db1 := VStr "postgres"; db2 := VStr "mysql"; diff := true |})] |}.
Proof.
  intros a b.
  apply (swapping_records_mirrors_the_report a b ["Tags"; "Engine"]
           {| status := "DIFFERENCES_FOUND";
              message := "Differences found for one or more specified fields.";
              differences :=
                [("Tags", {| db1 := VList [VStr "b"; VStr "a"];
                             db2 := VList [VStr "a"; VStr "c"]; diff := true |});
                 ("Engine", {| db1 := VStr "mysql"; db2 := VStr "postgres"; diff := true |})] |});
    reflexivity.
Defined.

(** *** Mappings are compared whatever the order of their keys *)

Lemma sort_items_sort_by (l : list (string * string)) :
  sort_items l = sort_by (fun x y => String.ltb (fst x) (fst y)) l.
Proof.
  induction l as [|x l IH]; simpl; [reflexivity|]. rewrite IH.
  generalize (sort_by (fun x y => String.ltb (fst x) (fst y)) l). intros s.
  induction s as [|y s IHs]; simpl; [reflexivity|]. now rewrite IHs.
Qed.

Lemma Forall2_eq_same {A : Type} (l m : list A) : Forall2 eq l m -> l = m.
Proof. induction 1; congruence. Qed.

Lemma NoDup_keys_entry {A : Type} (l : list (string * A)) (x y : string * A) :
  NoDup (map fst l) -> In x l -> In y l -> fst x = fst y -> x = y.
Proof.
  intros Hnd Hx Hy Hk. destruct x as [k v], y as [k' w]. simpl in Hk. subst k'.
  pose proof (dict_lookup_NoDup l k v Hnd Hx) as H1.
  pose proof (dict_lookup_NoDup l k w Hnd Hy) as H2. congruence.
Qed.

Lemma sort_items_permutation (l m : list (string * string)) :
  NoDup (map fst l) -> Permutation l m -> sort_items l = sort_items m.
Proof.
  intros Hnd Hp. rewrite !sort_items_sort_by. apply Forall2_eq_same.
  apply (sort_by_permutation _ eq (fun x => In x l)); try assumption.
  - reflexivity.
  - intros; congruence.
  - intros x y _ _. apply str_ltb_asym.
  - intros x y Hx Hy H1 H2. apply (NoDup_keys_entry l); try assumption.
    now apply str_ltb_eq.
  - intros z x y _ _ _. apply str_ltb_negtrans.
  - intros z z' x _ _ _ ->. reflexivity.
  - apply Forall_forall. auto.
Qed.

Lemma json_dumps_key_order (d1 d2 : list (string * value)) :
  NoDup (map fst d1) -> Permutation d1 d2 ->
  json_dumps (VDict d1) = json_dumps (VDict d2).
Proof.
  intros Hnd Hp.
  assert (Hitems : forall d : list (string * value),
            (fix items (d : list (string * value)) : list (string * string) :=
               match d with
               | [] => []
               | (k, v) :: d' => (k, json_dumps v) :: items d'
               end) d
            = map (fun kv => (fst kv, json_dumps (snd kv))) d).
  { induction d as [|[k v] d IH]; simpl; [reflexivity | now rewrite IH]. }
  simpl. rewrite !Hitems. do 4 f_equal.
  apply sort_items_permutation.
  - now rewrite map_map.
  - now apply Permutation_map.
Qed.

(** X5.  A field whose two values are dictionaries with the same entries in
    a different insertion order compares equal: whenever its comparison
    returns, the entry has [diff = False] and holds the two dictionaries
    as given. *)
Theorem mapping_key_order_is_ignored (a b : record) (f : string)
  (d1 d2 : list (string * value)) (d : FieldDifference) :
  dict_get a f = VDict d1 -> dict_get b f = VDict d2 ->
  NoDup (map fst d1) ->
  Permutation d1 d2 ->
  compare_field a b f = Ok d ->
  d = {| db1 := VDict d1; db2 := VDict d2; diff := false |} /\
  forall fs r, a <> [] -> b <> [] -> In f fs ->
    compare_rds_fields (Some a) (Some b) fs = Ok r ->
    dict_lookup (differences r) f
    = Some {| db1 := VDict d1; db2 := VDict d2; diff := false |}.
Proof.
  intros H1 H2 Hnd Hp Hret.
  assert (Hd : compare_field a b f
               = Ok {| db1 := VDict d1; db2 := VDict d2; diff := false |}).
  { unfold compare_field. rewrite H1, H2.
    rewrite (json_dumps_key_order d1 d2 Hnd Hp), String.eqb_refl. reflexivity. }
  split; [congruence|].
  intros fs r Ha Hb Hin Hrun.
  exact (compare_present_entry a b fs r f _ Ha Hb Hrun Hin Hd).
Qed.

Lemma mapping_key_order_is_ignored_witness :
  let d1 := [("Address", VStr "db.local"); ("Port", VInt 3306); ("HostedZoneId", VStr "Z1")] in
  let d2 := [("Port", VInt 3306); ("HostedZoneId", VStr "Z1"); ("Address", VStr "db.local")] in
  let d := {| db1 := VDict d1; db2 := VDict d2; diff := false |} in
  compare_field [("Endpoint", VDict d1)] [("Endpoint", VDict d2)] "Endpoint" = Ok d /\
  d = {| db1 := VDict d1; db2 := VDict d2; diff := false |}.
Proof.
  intros d1 d2 d. split; [reflexivity|].
  apply (mapping_key_order_is_ignored
           [("Endpoint", VDict d1)] [("Endpoint", VDict d2)] "Endpoint" d1 d2 d);
    try reflexivity.
  - apply keys_distinct_NoDup. reflexivity.
  - apply (Permutation_cons_app [("Port", VInt 3306); ("HostedZoneId", VStr "Z1")] []).
    reflexivity.
Defined.

(** ** The field list given on the command line *)

#[local] Arguments Ascii.eqb : simpl never.

Lemma split_on_cons (sep : ascii) (s : string) :
  exists w ws, split_on sep s = w :: ws.
Proof.
  induction s as [|c s (w & ws & IH)]; simpl; [eauto|].
  destruct (Ascii.eqb c sep); [eauto|]. rewrite IH. eauto.
Qed.

Lemma split_on_length (sep : ascii) (s : string) :
  List.length (split_on sep s) = S (count_char sep s).
Proof.
  induction s as [|c s IH]; simpl; [reflexivity|].
  destruct (Ascii.eqb c sep); simpl; [now rewrite IH|].
  destruct (split_on_cons sep s) as (w & ws & Hs). now rewrite Hs in *.
Qed.

Lemma join_cons (sep x : string) (l : list string) :
  l <> [] -> join sep (x :: l) = (x ++ sep ++ join sep l)%string.
Proof. destruct l; [congruence | reflexivity]. Qed.

(** Splitting loses nothing: joining the pieces with commas gives the
    text back. *)
Lemma join_split_on (s : string) :
  join (String comma EmptyString) (split_on comma s) = s.
Proof.
  induction s as [|c s IH]; [reflexivity|]. simpl split_on.
  destruct (split_on_cons comma s) as (w & ws & Hs). rewrite Hs in *.
  destruct (Ascii.eqb_spec c comma) as [->|Hne].
  - rewrite join_cons by discriminate. now rewrite IH.
  - destruct ws as [|w' ws].
    + simpl in *. now rewrite IH.
    + rewrite join_cons in * by discriminate. rewrite <- IH. reflexivity.
Qed.

Lemma split_on_plain (s : string) :
  contains comma s = false -> split_on comma s = [s].
Proof.
  induction s as [|c s IH]; simpl; [reflexivity|].
  rewrite (Ascii.eqb_sym c comma).
  destruct (Ascii.eqb comma c); simpl; [intros H; discriminate H|].
  intros H. now rewrite IH.
Qed.

Lemma split_on_append (x rest : string) :
  contains comma x = false ->
  split_on comma (x ++ String comma rest)%string = x :: split_on comma rest.
Proof.
  induction x as [|c x IH]; simpl.
  - intros _. reflexivity.
  - rewrite (Ascii.eqb_sym c comma).
    destruct (Ascii.eqb comma c); simpl; [intros H; discriminate H|].
    intros H. now rewrite IH.
Qed.

Lemma split_on_join (raws : list string) :
  raws <> [] ->
  Forall (fun raw => contains comma raw = false) raws ->
  split_on comma (join (String comma EmptyString) raws) = raws.
Proof.
  intros Hne Hall. induction Hall as [|x l Hx Hl IH]; [congruence|].
  destruct l as [|y l].
  - simpl. now apply split_on_plain.
  - rewrite join_cons by discriminate.
    change (x ++ String comma EmptyString ++ join (String comma EmptyString) (y :: l))%string
      with (x ++ String comma (join (String comma EmptyString) (y :: l)))%string.
    rewrite split_on_append by assumption.
    now rewrite IH by discriminate.
Qed.

Lemma split_on_pieces_plain (s : string) :
  Forall (fun w => contains comma w = false) (split_on comma s).
Proof.
  induction s as [|c s IH]; simpl; [repeat constructor|].
  destruct (Ascii.eqb_spec c comma) as [->|Hne].
  - constructor; [reflexivity | assumption].
  - destruct (split_on_cons comma s) as (w & ws & Hs). rewrite Hs in *.
    inversion IH; subst. constructor; [|assumption]. simpl.
    destruct (Ascii.eqb_spec comma c); [congruence | assumption].
Qed.

(** [strip] *)

Lemma lstrip_first (s : string) : first_char_ok (lstrip s) = true.
Proof.
  induction s as [|c s IH]; simpl; [reflexivity|].
  destruct (is_space c) eqn:Hc; [assumption|]. simpl. now rewrite Hc.
Qed.

Lemma rstrip_first (s : string) :
  first_char_ok s = true -> first_char_ok (rstrip s) = true.
Proof.
  destruct s as [|c s]; simpl; [reflexivity|].
  intros Hc. destruct (rstrip s); simpl.
  - apply negb_true_iff in Hc. rewrite Hc. simpl. now rewrite Hc.
  - assumption.
Qed.

Lemma rstrip_last (s : string) : last_char_ok (rstrip s) = true.
Proof.
  induction s as [|c s IH]; simpl; [reflexivity|].
  destruct (rstrip s) as [|c' r] eqn:Hr.
  - destruct (is_space c) eqn:Hc; simpl; [reflexivity | now rewrite Hc].
  - exact IH.
Qed.

Lemma lstrip_fixed (s : string) : first_char_ok s = true -> lstrip s = s.
Proof.
  destruct s as [|c s]; simpl; [reflexivity|].
  intros Hc. apply negb_true_iff in Hc. now rewrite Hc.
Qed.

Lemma rstrip_fixed (s : string) : last_char_ok s = true -> rstrip s = s.
Proof.
  induction s as [|c s IH]; [reflexivity|].
  destruct s as [|c' s].
  - simpl. intros Hc. apply negb_true_iff in Hc. now rewrite Hc.
  - intros H. change (last_char_ok (String c' s) = true) in H.
    change (rstrip (String c (String c' s)))
      with (match rstrip (String c' s) with
            | EmptyString => if is_space c then EmptyString else String c EmptyString
            | r => String c r
            end).
    now rewrite (IH H).
Qed.

Lemma lstrip_plain (s : string) :
  contains comma s = false -> contains comma (lstrip s) = false.
Proof.
  induction s as [|c s IH]; simpl; [reflexivity|].
  destruct (is_space c); simpl; [|trivial].
  intros H. apply orb_false_iff in H as [_ H]. auto.
Qed.

Lemma rstrip_plain (s : string) :
  contains comma s = false -> contains comma (rstrip s) = false.
Proof.
  induction s as [|c s IH]; simpl; [reflexivity|].
  intros H. apply orb_false_iff in H as [Hc H]. specialize (IH H).
  destruct (rstrip s); simpl in *.
  - destruct (is_space c); simpl; [reflexivity | now rewrite Hc].
  - now rewrite Hc.
Qed.

Lemma strip_stripped (s : string) : stripped (strip s) = true.
Proof.
  unfold stripped, strip.
  now rewrite rstrip_first, rstrip_last by apply lstrip_first.
Qed.

Lemma strip_fixed (s : string) : stripped s = true -> strip s = s.
Proof.
  unfold stripped, strip. intros H. apply andb_true_iff in H as [H1 H2].
  now rewrite lstrip_fixed, rstrip_fixed.
Qed.

(** X6.  The field list is never empty: an argument with [n] commas gives
    [n + 1] names, so the empty argument gives the one name [""] and the
    test [all([..., fields_to_compare])] of [main] cannot fail on it. *)
Theorem parse_fields_count (s : string) :
  List.length (parse_fields s) = S (count_char comma s) /\ parse_fields s <> [].
Proof.
  unfold parse_fields. rewrite length_map, split_on_length. split; [reflexivity|].
  destruct (split_on_cons comma s) as (w & ws & ->). discriminate.
Qed.

(** X7.  Every parsed name is free of commas and of leading and trailing
    white space, and parsing leaves such a name as it is. *)
Theorem parse_fields_names_are_clean (s : string) :
  Forall (fun f => stripped f = true /\ contains comma f = false /\
                   parse_fields f = [f])
         (parse_fields s).
Proof.
  unfold parse_fields. apply Forall_forall. intros f Hf.
  apply in_map_iff in Hf as (w & <- & Hw).
  pose proof (split_on_pieces_plain s) as Hplain.
  rewrite Forall_forall in Hplain. specialize (Hplain w Hw).
  assert (Hc : contains comma (strip w) = false).
  { unfold strip. now apply rstrip_plain, lstrip_plain. }
  split; [apply strip_stripped|]. split; [exact Hc|].
  rewrite split_on_plain by exact Hc. simpl.
  now rewrite strip_fixed by apply strip_stripped.
Qed.

(** X8.  Round trip: a non-empty list of comma-free texts, joined with commas
    and parsed, comes back with each text stripped; names without
    surrounding white space come back unchanged. *)
Theorem parse_fields_of_joined_names (raws : list string) :
  raws <> [] ->
  Forall (fun raw => contains comma raw = false) raws ->
  parse_fields (join (String comma EmptyString) raws) = map strip raws /\
  (Forall (fun raw => stripped raw = true) raws ->
   parse_fields (join (String comma EmptyString) raws) = raws).
Proof.
  intros Hne Hall. unfold parse_fields. rewrite split_on_join by assumption.
  split; [reflexivity|].
  intros Hs. clear Hne Hall. induction Hs as [|x l Hx _ IH]; [reflexivity|].
  simpl. now rewrite IH, strip_fixed.
Qed.

Lemma parse_fields_of_joined_names_witness :
  parse_fields "DBInstanceClass, EngineVersion ,MultiAZ"
  = ["DBInstanceClass"; "EngineVersion"; "MultiAZ"].
Proof.
  apply (proj1 (parse_fields_of_joined_names
                  ["DBInstanceClass"; " EngineVersion "; "MultiAZ"]
                  ltac:(discriminate) ltac:(repeat constructor))).
Defined.

(** ** The S3 object key *)

Lemma append_assoc (s t u : string) :
  ((s ++ t) ++ u)%string = (s ++ (t ++ u))%string.
Proof. induction s as [|c s IH]; simpl; [reflexivity | now rewrite IH]. Qed.

Lemma append_inv_head (s t u : string) :
  (s ++ t)%string = (s ++ u)%string -> t = u.
Proof. induction s as [|c s IH]; simpl; [trivial|]. intros [= H]. auto. Qed.

Lemma append_length (s t : string) :
  String.length (s ++ t)%string = (String.length s + String.length t)%nat.
Proof. induction s as [|c s IH]; simpl; [reflexivity | now rewrite IH]. Qed.

Lemma append_inj_length (s s' t t' : string) :
  String.length s = String.length s' ->
  (s ++ t)%string = (s' ++ t')%string ->
  s = s' /\ t = t'.
Proof.
  revert s'. induction s as [|c s IH]; intros [|c' s']; simpl;
    try discriminate.
  - auto.
  - intros [= Hlen] [= -> H]. destruct (IH s' Hlen H) as [-> ->]. auto.
Qed.

Lemma pad_length (w : nat) (n : Z) : String.length (pad w n) = w.
Proof.
  revert n. induction w as [|w IH]; intros n; simpl; [reflexivity|].
  rewrite append_length, IH. simpl. lia.
Qed.

Lemma digit_inj (d e : Z) :
  0 <= d < 10 -> 0 <= e < 10 -> digit d = digit e -> d = e.
Proof.
  intros Hd He H. unfold digit in H.
  apply (f_equal N_of_ascii) in H.
  rewrite !N_ascii_embedding in H by lia. lia.
Qed.

Lemma pad_inj (w : nat) :
  forall n m,
    0 <= n < 10 ^ Z.of_nat w -> 0 <= m < 10 ^ Z.of_nat w ->
    pad w n = pad w m -> n = m.
Proof.
  induction w as [|w IH]; intros n m Hn Hm H.
  - simpl in Hn, Hm. lia.
  - rewrite Nat2Z.inj_succ, Z.pow_succ_r in Hn, Hm by lia.
    simpl in H.
    apply append_inj_length in H as [H1 H2]; [|now rewrite !pad_length].
    injection H2 as H2.
    apply digit_inj in H2; [| apply Z.mod_pos_bound; lia | apply Z.mod_pos_bound; lia].
    apply IH in H1.
    + rewrite (Z.div_mod n 10), (Z.div_mod m 10) by lia. congruence.
    + split; [apply Z.div_pos; lia | apply Z.div_lt_upper_bound; lia].
    + split; [apply Z.div_pos; lia | apply Z.div_lt_upper_bound; lia].
Qed.

Lemma strftime_length (t : timestamp) : String.length (strftime t) = 23%nat.
Proof.
  unfold strftime. repeat rewrite append_length. rewrite !pad_length. reflexivity.
Qed.

Ltac split_pad H w :=
  let H1 := fresh "Hpad" in
  apply append_inj_length in H as [H1 H]; [|now rewrite !pad_length];
  apply (pad_inj w) in H1; [|simpl; lia|simpl; lia].

(** The text of a reading of the clock determines the reading. *)
Lemma strftime_inj (t1 t2 : timestamp) :
  valid_timestamp t1 -> valid_timestamp t2 ->
  strftime t1 = strftime t2 -> t1 = t2.
Proof.
  intros (Hy1 & Hm1 & Hd1 & HH1 & HM1 & HS1 & Hf1)
         (Hy2 & Hm2 & Hd2 & HH2 & HM2 & HS2 & Hf2) H.
  unfold strftime in H.
  split_pad H 4%nat. apply (append_inv_head "/") in H.
  split_pad H 2%nat. apply (append_inv_head "/") in H.
  split_pad H 2%nat. apply (append_inv_head "/") in H.
  split_pad H 2%nat. split_pad H 2%nat. split_pad H 2%nat.
  apply (pad_inj 6) in H; [|simpl; lia|simpl; lia].
  destruct t1, t2; simpl in *; congruence.
Qed.

(** X9.  Two reports on the same pair of instances get different keys when
    they are stored at different times: no report overwrites another. *)
Theorem s3_object_key_tells_the_time (db1_identifier db2_identifier : string)
  (t1 t2 : timestamp) :
  valid_timestamp t1 -> valid_timestamp t2 ->
  s3_object_key db1_identifier db2_identifier t1
  = s3_object_key db1_identifier db2_identifier t2 ->
  t1 = t2.
Proof.
  intros H1 H2 H. unfold s3_object_key in H.
  do 5 apply append_inv_head in H.
  apply append_inj_length in H as [H _]; [|now rewrite !strftime_length].
  now apply strftime_inj.
Qed.

Lemma s3_object_key_tells_the_time_witness :
  let t := {| year := 2026; month := 11; day := 3; hour := 9; minute := 5;
              second := 7; microsecond := 42 |} in
  s3_object_key "prod-db" "stage-db" t
  = "rds-comparison-results/prod-db-vs-stage-db/2026/11/03/090507000042.json" /\
  forall t', valid_timestamp t' ->
    s3_object_key "prod-db" "stage-db" t = s3_object_key "prod-db" "stage-db" t' ->
    t = t'.
Proof.
  intros t. split; [reflexivity|].
  intros t' Hv. apply (s3_object_key_tells_the_time "prod-db" "stage-db" t t'); [|exact Hv].
  unfold valid_timestamp. simpl. lia.
Defined.

(** X10.  The key does not tell the two identifiers apart: the pair
    [(x-vs-y, z)] and the pair [(x, y-vs-z)] get the same key at the same
    time. *)
Theorem s3_object_key_mixes_identifiers (x y z : string) (t : timestamp) :
  s3_object_key (x ++ "-vs-" ++ y)%string z t
  = s3_object_key x (y ++ "-vs-" ++ z)%string t.
Proof.
  unfold s3_object_key. f_equal.
  now rewrite !append_assoc.
Qed.

(** ** [main] *)

Lemma truthy_str (s : string) : truthy (VStr s) = true <-> s <> EmptyString.
Proof.
  simpl. rewrite negb_true_iff. split.
  - intros H ->. discriminate.
  - intros H. now apply String.eqb_neq.
Qed.

Lemma truthy_dict (d : list (string * value)) : truthy (VDict d) = true <-> d <> [].
Proof. destruct d; simpl; split; congruence. Qed.

(** With usable details and at least one field, either both details are
    dictionaries and [compare_rds_fields] runs on them, or the first
    [.get] raises. *)
Lemma compare_details_cases (d1 d2 : value) (fs : list string) :
  fs <> [] -> truthy d1 = true -> truthy d2 = true ->
  (exists a b, d1 = VDict a /\ d2 = VDict b /\ a <> [] /\ b <> [] /\
     compare_details d1 d2 fs = compare_rds_fields (Some a) (Some b) fs) \/
  ((forall a b, d1 = VDict a -> d2 = VDict b -> False) /\
   compare_details d1 d2 fs = Raise AttributeError).
Proof.
  intros Hfs H1 H2. unfold compare_details. rewrite H1, H2. simpl.
  destruct fs as [|f fs]; [congruence|].
  destruct d1 as [|b1|n1|s1|l1|a]; destruct d2 as [|b2|n2|s2|l2|b];
    try (right; split; [intros ? ? ? ?; discriminate | reflexivity]).
  left. exists a, b. rewrite truthy_dict in H1, H2. auto.
Qed.

Lemma compare_present_status (a b : record) (fs : list string) (r : ComparisonReport) :
  a <> [] -> b <> [] ->
  compare_rds_fields (Some a) (Some b) fs = Ok r ->
  (any_differs r = false /\ status r = "SUCCESS") \/
  (any_differs r = true /\ status r = "DIFFERENCES_FOUND").
Proof.
  intros Ha Hb Hrun.
  destruct (compare_present a b fs r Ha Hb Hrun) as (_ & _ & Hst & _).
  destruct (any_differs r); auto.
Qed.

(** The runs of [main], case by case. *)
Lemma main_cases (env : environment) (args : arguments) :
  let db1_identifier := arg_db1_identifier args in
  let db2_identifier := arg_db2_identifier args in
  let fs := parse_fields (arg_fields_to_compare args) in
  let d1 := get_rds_instance_details (describe_db_instances env) db1_identifier in
  let d2 := get_rds_instance_details (describe_db_instances env) db2_identifier in
  let requests report :=
    if negb (truthy (VStr (S3_BUCKET_NAME env))) then []
    else [s3_request (S3_BUCKET_NAME env) (now env) db1_identifier db2_identifier report] in
  let location report :=
    s3_location (S3_BUCKET_NAME env)
      (store_comparison_results_to_s3 (S3_BUCKET_NAME env) (put_object env) (now env)
         db1_identifier db2_identifier report) in
  ((db1_identifier = EmptyString \/ db2_identifier = EmptyString \/
    truthy d1 = false \/ truthy d2 = false) /\
   main env args = {| ending := Exit 1; s3_requests := []; printed := [] |}) \/
  (db1_identifier <> EmptyString /\ db2_identifier <> EmptyString /\
   truthy d1 = true /\ truthy d2 = true /\
   ((exists e,
       compare_details d1 d2 fs = Raise e /\
       main env args = {| ending := Traceback e; s3_requests := []; printed := [] |}) \/
    (exists a b report,
       d1 = VDict a /\ d2 = VDict b /\ a <> [] /\ b <> [] /\
       compare_rds_fields (Some a) (Some b) fs = Ok report /\
       ((any_differs report = false /\
         main env args
         = {| ending := Exit 0; s3_requests := requests report;
              printed := [VDict [("status", VStr "SUCCESS");
                                 ("message", VStr "No differences found.");
                                 ("s3_location", location report)]] |}) \/
        (any_differs report = true /\
         main env args
         = {| ending := Exit 1; s3_requests := requests report;
              printed := [VDict [("status", VStr "DIFFERENCES_FOUND");
                                 ("message", VStr "Differences found.");
                                 ("differences", differences_value (differences report));
                                 ("s3_location", location report)]] |}))))).
Proof.
  intros db1_identifier db2_identifier fs d1 d2 requests location.
  destruct (parse_fields_count (arg_fields_to_compare args)) as [_ Hfs].
  fold fs in Hfs. unfold main. fold db1_identifier db2_identifier fs d1 d2.
  destruct (truthy (VStr db1_identifier)) eqn:Hid1; [|left; split; [|reflexivity]].
  2:{ left. destruct (String.eqb_spec db1_identifier EmptyString); [assumption|].
      apply truthy_str in n. congruence. }
  destruct (truthy (VStr db2_identifier)) eqn:Hid2; [|left; split; [|reflexivity]].
  2:{ right. left. destruct (String.eqb_spec db2_identifier EmptyString); [assumption|].
      apply truthy_str in n. congruence. }
  apply truthy_str in Hid1, Hid2.
  destruct fs as [|f0 fs'] eqn:Efs; [congruence|]. rewrite <- Efs in *. simpl andb.
  cbv iota. simpl negb. cbv iota.
  destruct (truthy d1) eqn:Ht1; [|left; split; [auto | reflexivity]].
  destruct (truthy d2) eqn:Ht2; [|left; split; [auto | reflexivity]].
  simpl orb. cbv iota.
  right. repeat (split; [assumption || reflexivity|]).
  destruct (compare_details_cases d1 d2 fs Hfs Ht1 Ht2)
    as [(a & b & E1 & E2 & Ha & Hb & Hc) | [_ Hc]].
  - rewrite Hc.
    destruct (compare_rds_fields (Some a) (Some b) fs) as [report|e] eqn:Hrun.
    + right. exists a, b, report. repeat (split; [assumption || reflexivity|]).
      destruct (compare_present_status a b fs report Ha Hb Hrun) as [[Hn Hs]|[Hn Hs]];
        rewrite Hs; simpl String.eqb; cbv iota; [left | right]; split;
        (assumption || reflexivity).
    + left. exists e. split; reflexivity.
  - left. exists AttributeError. split; [assumption|]. now rewrite Hc.
Qed.

Lemma compare_details_dicts (a b : record) (fs : list string) :
  a <> [] -> b <> [] ->
  compare_details (VDict a) (VDict b) fs = compare_rds_fields (Some a) (Some b) fs.
Proof.
  intros Ha Hb. unfold compare_details.
  apply truthy_dict in Ha, Hb. now rewrite Ha, Hb.
Qed.


Lemma get_rds_instance_details_ext (f g : string -> client_result) (id : string) :
  f id = g id -> get_rds_instance_details f id = get_rds_instance_details g id.
Proof. intros H. unfold get_rds_instance_details. now rewrite H. Qed.

(** X12.  How the process ends depends on the two lookups and on the
    arguments only: the bucket, the clock and the success or failure of
    the upload do not change the exit status. *)
Theorem main_ending_ignores_s3 (env env' : environment) (args : arguments) :
  (forall id, describe_db_instances env id = describe_db_instances env' id) ->
  ending (main env args) = ending (main env' args).
Proof.
  intros H. unfold main.
  rewrite (get_rds_instance_details_ext _ _ (arg_db1_identifier args)
             (H (arg_db1_identifier args))).
  rewrite (get_rds_instance_details_ext _ _ (arg_db2_identifier args)
             (H (arg_db2_identifier args))).
  destruct (negb _); [reflexivity|].
  destruct (_ || _); [reflexivity|].
  destruct (compare_details _ _ _) as [report|e]; [|reflexivity].
  destruct (String.eqb (status report) "SUCCESS"); [reflexivity|].
  destruct (String.eqb (status report) "DIFFERENCES_FOUND"); reflexivity.
Qed.

Lemma main_ending_ignores_s3_witness :
  let describe id :=
    Response (VDict [("DBInstances", VList [VDict [("Engine", VStr "mysql")]])]) in
  let t := {| year := 2026; month := 11; day := 3; hour := 9; minute := 5;
              second := 7; microsecond := 42 |} in
  let args := {| arg_db1_identifier := "a"; arg_db2_identifier := "b";
                 arg_fields_to_compare := "Engine" |} in
  ending (main {| describe_db_instances := describe; put_object := fun _ => true;
                  now := t; S3_BUCKET_NAME := "reports" |} args)
  = ending (main {| describe_db_instances := describe; put_object := fun _ => false;
                    now := t; S3_BUCKET_NAME := "reports" |} args).
Proof.
  intros describe t args.
  apply (main_ending_ignores_s3
           {| describe_db_instances := describe; put_object := fun _ => true;
              now := t; S3_BUCKET_NAME := "reports" |}
           {| describe_db_instances := describe; put_object := fun _ => false;
              now := t; S3_BUCKET_NAME := "reports" |} args).
  reflexivity.
Defined.


(** X14.  [main] writes to S3 at most once, and only a report it has computed:
    a request is sent only when the bucket is named, both lookups gave a
    description and the comparison returned; its key is built from the two
    identifiers and the clock, and its body is that report with an indent
    of four. *)
Theorem main_stores_only_computed_reports (env : environment) (args : arguments)
  (request : string * string * string) :
  In request (s3_requests (main env args)) ->
  let db1_identifier := arg_db1_identifier args in
  let db2_identifier := arg_db2_identifier args in
  s3_requests (main env args) = [request] /\
  printed (main env args) <> [] /\
  S3_BUCKET_NAME env <> EmptyString /\
  exists a b report,
    get_rds_instance_details (describe_db_instances env) db1_identifier = VDict a /\
    get_rds_instance_details (describe_db_instances env) db2_identifier = VDict b /\
    compare_rds_fields (Some a) (Some b) (parse_fields (arg_fields_to_compare args))
    = Ok report /\
    request = (S3_BUCKET_NAME env,
               s3_object_key db1_identifier db2_identifier (now env),
               json_indented 4 0 (report_value report)).
Proof.
  intros Hin db1_identifier db2_identifier. subst db1_identifier db2_identifier.
  revert Hin.
  destruct (main_cases env args)
    as [[_ ->] | (_ & _ & _ & _ &
         [(e & _ & ->) | (a & b & report & E1 & E2 & _ & _ & Hrun &
           [[_ ->] | [_ ->]])])]; simpl; try (intros []).
  - destruct (String.eqb_spec (S3_BUCKET_NAME env) EmptyString) as [He|Hne];
      simpl; [intros []|].
    intros [<-|[]]. split; [reflexivity|]. split; [discriminate|].
    split; [assumption|]. exists a, b, report. auto.
  - destruct (String.eqb_spec (S3_BUCKET_NAME env) EmptyString) as [He|Hne];
      simpl; [intros []|].
    intros [<-|[]]. split; [reflexivity|]. split; [discriminate|].
    split; [assumption|]. exists a, b, report. auto.
Qed.

Lemma main_stores_only_computed_reports_witness :
  let describe id :=
    Response (VDict [("DBInstances", VList [VDict [("Engine", VStr "mysql")]])]) in
  let t := {| year := 2026; month := 11; day := 3; hour := 9; minute := 5;
              second := 7; microsecond := 42 |} in
  let args := {| arg_db1_identifier := "a"; arg_db2_identifier := "b";
                 arg_fields_to_compare := "Engine" |} in
  let env := {| describe_db_instances := describe; put_object := fun _ => false;
                now := t; S3_BUCKET_NAME := "reports" |} in
  exists body,
    s3_requests (main env args)
    = [("reports", "rds-comparison-results/a-vs-b/2026/11/03/090507000042.json", body)] /\
    printed (main env args)
    = [VDict [("status", VStr "SUCCESS"); ("message", VStr "No differences found.");
              ("s3_location", VStr "S3 storage failed.")]].
Proof.
  intros describe t args env.
  destruct (main_stores_only_computed_reports env args
              (s3_request "reports" t "a" "b"
                 {| status := "SUCCESS";
                    message := "No differences found for specified fields.";
                    differences := [("Engine", {| db1 := VStr "mysql"; db2 := VStr "mysql";
                                                  diff := false |})] |}))
    as (Hreq & _); [now left|].
  eexists. split; [exact Hreq | reflexivity].
Defined.

(** A lookup has nothing to offer: the client raised, or its response
    has no [DBInstances] entry or an empty list of instances. *)
Lemma get_rds_instance_details_nothing
  (describe : string -> client_result) (id : string) :
  describe id = DBInstanceNotFoundFault \/
  describe id = ClientException \/
  (exists r, describe id = Response (VDict r) /\
     (dict_lookup r "DBInstances" = None \/
      dict_lookup r "DBInstances" = Some (VList []))) ->
  get_rds_instance_details describe id = VNone.
Proof.
  unfold get_rds_instance_details.
  intros [-> | [-> | (r & -> & [H|H])]]; try reflexivity.
  - unfold dict_get. rewrite H. simpl. now destruct r.
  - unfold dict_get. rewrite H. simpl. now destruct r.
Qed.

(** X15.  When a lookup fails, whether the instance is not found, the client
    raises anything else, or the response lists no instance, the lookup
    gives [None] and [main] ends with status 1 without comparing, storing
    or printing anything. *)
Theorem failed_lookup_ends_quietly (env : environment) (args : arguments)
  (id : string) :
  id = arg_db1_identifier args \/ id = arg_db2_identifier args ->
  describe_db_instances env id = DBInstanceNotFoundFault \/
  describe_db_instances env id = ClientException \/
  (exists r, describe_db_instances env id = Response (VDict r) /\
     (dict_lookup r "DBInstances" = None \/
      dict_lookup r "DBInstances" = Some (VList []))) ->
  get_rds_instance_details (describe_db_instances env) id = VNone /\
  main env args = {| ending := Exit 1; s3_requests := []; printed := [] |}.
Proof.
  intros Hid Hfail.
  pose proof (get_rds_instance_details_nothing _ id Hfail) as Hnone.
  split; [exact Hnone|].
  destruct (main_cases env args)
    as [[_ ->] | (_ & _ & Ht1 & Ht2 & _)]; [reflexivity|].
  destruct Hid as [-> | ->]; rewrite Hnone in *; discriminate.
Qed.

Lemma failed_lookup_ends_quietly_witness :
  let describe id :=
    if String.eqb id "gone" then DBInstanceNotFoundFault
    else Response (VDict [("DBInstances", VList [VDict [("Engine", VStr "mysql")]])]) in
  let env := {| describe_db_instances := describe; put_object := fun _ => true;
                now := {| year := 2026; month := 11; day := 3; hour := 9; minute := 5;
                          second := 7; microsecond := 42 |};
                S3_BUCKET_NAME := "reports" |} in
  let args := {| arg_db1_identifier := "prod"; arg_db2_identifier := "gone";
                 arg_fields_to_compare := "Engine" |} in
  main env args = {| ending := Exit 1; s3_requests := []; printed := [] |}.
Proof.
  intros describe env args.
  apply (failed_lookup_ends_quietly env args "gone"); [right; reflexivity|].
  left. reflexivity.
Defined.

(** ** Lists that compare equal are rearrangements of each other *)

Lemma Forall2_Permutation {A : Type} (R : A -> A -> Prop) (s2 l2 : list A) :
  Permutation s2 l2 ->
  forall s1, Forall2 R s1 s2 ->
    exists l, Permutation s1 l /\ Forall2 R l l2.
Proof.
  induction 1 as [|x s2 l2 Hp IH|x y t|s2 m l2 Hp1 IH1 Hp2 IH2]; intros s1 HF.
  - inversion HF; subst. exists []. split; constructor.
  - inversion HF as [|u ? s1' ? Hu HF']; subst.
    destruct (IH s1' HF') as (l & Hl & HFl).
    exists (u :: l). split; [now apply perm_skip | now constructor].
  - inversion HF as [|u ? s1' ? Hu HF']; subst.
    inversion HF' as [|v ? s1'' ? Hv HF'']; subst.
    exists (v :: u :: s1''). split; [apply perm_swap | repeat constructor; assumption].
  - destruct (IH1 s1 HF) as (l & Hl & HFl).
    destruct (IH2 l HFl) as (l' & Hl' & HFl').
    exists l'. split; [now transitivity l | assumption].
Qed.

(** X16.  The comparison of two lists under a name other than
    [VpcSecurityGroups] misses no difference: when the entry has
    [diff = False], the second list is a rearrangement of the first, item
    for item equal under [==]. *)
Theorem equal_lists_are_rearrangements (a b : record) (f : string)
  (l1 l2 : list value) (d : FieldDifference) :
  f <> "VpcSecurityGroups" ->
  dict_get a f = VList l1 -> dict_get b f = VList l2 ->
  compare_field a b f = Ok d ->
  diff d = false ->
  exists l, Permutation l1 l /\ Forall2 (fun x y => py_eq x y = true) l l2.
Proof.
  intros Hf H1 H2 Hd Hdiff.
  rewrite (compare_field_lists a b f l1 l2) in Hd;
    [| now apply String.eqb_neq | assumption | assumption].
  bind_inv Hd. rename x into s1. bind_inv Hd. rename x into s2.
  injection Hd as <-. simpl in Hdiff.
  unfold py_ne in Hdiff. apply negb_false_iff in Hdiff.
  rewrite py_eq_list in Hdiff. apply eq_items_Forall2 in Hdiff.
  apply sorted_Permutation in Hx, Hx0.
  destruct (Forall2_Permutation _ s2 l2 (Permutation_sym Hx0) s1 Hdiff)
    as (l & Hl & HF).
  exists l. split; [now transitivity s1 | assumption].
Qed.

Lemma equal_lists_are_rearrangements_witness :
  let a := [("Tags", VList [VStr "b"; VStr "c"; VStr "a"])] in
  let b := [("Tags", VList [VStr "a"; VStr "b"; VStr "c"])] in
  compare_field a b "Tags"
  = Ok {| db1 := VList [VStr "b"; VStr "c"; VStr "a"];
          db2 := VList [VStr "a"; VStr "b"; VStr "c"]; diff := false |} /\
  exists l,
    Permutation [VStr "b"; VStr "c"; VStr "a"] l /\
    Forall2 (fun x y => py_eq x y = true) l [VStr "a"; VStr "b"; VStr "c"].
Proof.
  intros a b. split; [reflexivity|].
  apply (equal_lists_are_rearrangements a b "Tags"
           [VStr "b"; VStr "c"; VStr "a"] [VStr "a"; VStr "b"; VStr "c"]
           {| db1 := VList [VStr "b"; VStr "c"; VStr "a"];
              db2 := VList [VStr "a"; VStr "b"; VStr "c"]; diff := false |});
    try reflexivity.
  discriminate.
Defined.


